(** * Sidebar and treeview behaviour of [assets/js/adminlte.js]

    The script toggles three CSS class flags on DOM elements in reaction
    to clicks and window resizes: [sidebar-collapse] on the body,
    [sidebar-open] on the sidebar and [menu-open] on treeview entries.
    The development below embeds its three functions and the click
    listener it installs on the document, over a model of the DOM objects
    they touch: the elements of the document in tree order, the window
    width, and the event objects handed to the handlers.  The
    registration of the listeners and the dispatch of events to them are
    modelled on top of that. *)

From Stdlib Require Import ZArith.
From stdpp Require Import base tactics option list strings.

Open Scope string_scope.
Open Scope list_scope.
Open Scope Z_scope.

(** ** DOM objects *)

(** An element reference is the position of the element among the
    elements of the document, in tree order. *)
Abbreviation node := nat (only parsing).

(** [classList] is a [DOMTokenList]: an ordered set of class names. *)
Abbreviation DOMTokenList := (list string) (only parsing).

Record Element := mkElement {
  id_attr : string;
  classList : DOMTokenList;
  parentElement : option node
}.

(** The target of an event that reaches the document is the document
    itself or one of its elements. *)
Inductive EventTarget :=
  | TargetDocument
  | TargetElement (n : node).

Record Event := mkEvent {
  target : EventTarget;
  cancelable : bool;
  defaultPrevented : bool
}.

(** An event reference is the position of the event object among the
    live ones. *)
Abbreviation event := nat (only parsing).

(** Everything the script can read or write: [window.innerWidth],
    [document.body], the elements of the document and the live event
    objects. *)
Record world := mkWorld {
  innerWidth : Z;
  body : option node;
  elements : list Element;
  events : list Event
}.

(** ** Token lists *)

Module TokenList.

Definition contains (token : string) (l : DOMTokenList) : bool :=
  bool_decide (token ∈ l).

Definition remove (token : string) (l : DOMTokenList) : DOMTokenList :=
  filter (λ t, t ≠ token) l.

(** [toggle] without a [force] argument: an existing token is removed
    and [false] is returned, a missing one is appended and [true] is
    returned. *)
Definition toggle (token : string) (l : DOMTokenList) : bool * DOMTokenList :=
  if contains token l then (false, remove token l) else (true, l ++ [token]).

End TokenList.

(** ** Running a handler *)

Inductive exn := TypeError.

Inductive completion (A : Type) :=
  | Normal (a : A)
  | Throw (e : exn).
Arguments Normal {A} a.
Arguments Throw {A} e.

(** A computation reads and writes the world and either completes or
    throws; what it wrote before throwing stays written. *)
Definition JS (A : Type) : Type := world → completion A * world.

Definition ret {A} (a : A) : JS A := λ w, (Normal a, w).

Definition bind {A B} (m : JS A) (k : A → JS B) : JS B :=
  λ w, match m w with
       | (Normal a, w') => k a w'
       | (Throw e, w') => (Throw e, w')
       end.

Declare Scope js_scope.
Delimit Scope js_scope with js.
Notation "x ← y ; z" := (bind y (λ x, z))
  (at level 20, y at level 100, z at level 200, only parsing) : js_scope.
Notation "' x ← y ; z" := (bind y (λ x, z))
  (at level 20, x pattern, y at level 100, z at level 200, only parsing) : js_scope.
Notation "x ;; z" := (bind x (λ _, z))
  (at level 100, z at level 200, only parsing, right associativity) : js_scope.
Open Scope js_scope.

(** [a && b]: [b] is evaluated only when [a] is true. *)
Definition and_then (a b : JS bool) : JS bool :=
  x ← a; if x then b else ret false.
Infix "&&&" := and_then (at level 40, left associativity) : js_scope.

(** [!a] *)
Definition not_ (a : JS bool) : JS bool :=
  x ← a; ret (negb x).

(** The world a run leaves behind, whether it completed or threw. *)
Definition exec {A} (m : JS A) (w : world) : world := (m w).2.

(** The run completed without a fault. *)
Definition completes {A} (m : JS A) (w : world) : Prop :=
  ∃ a, (m w).1 = Normal a.

(** ** The host interface used by the script *)

Definition window_innerWidth : JS Z := λ w, (Normal (innerWidth w), w).

Definition document_body : JS (option node) := λ w, (Normal (body w), w).

(** First position in tree order at which [P] holds. *)
Definition first_element (P : Element → bool) (els : list Element) : option node :=
  fst <$> list_find (λ e, P e = true) els.

Definition element_by_id (i : string) (els : list Element) : option node :=
  first_element (λ e, bool_decide (id_attr e = i)) els.

(** [document.getElementById(id)]: the first element in tree order
    with that id, or null. *)
Definition getElementById (i : string) : JS (option node) :=
  λ w, (Normal (element_by_id i (elements w)), w).

(** The one selector form the script uses: [.name]. *)
Inductive selector := ClassSelector (name : string).

Definition matches (s : selector) (e : Element) : bool :=
  match s with ClassSelector c => TokenList.contains c (classList e) end.

(** [document.querySelector(sel)]: the first match in tree order, or
    null. *)
Definition querySelector (s : selector) : JS (option node) :=
  λ w, (Normal (first_element (matches s) (elements w)), w).

(** Reading a property of [null] or [undefined] throws a [TypeError]. *)
Definition deref (o : option node) : JS (node * Element) :=
  λ w, match o with
       | Some n =>
           match elements w !! n with
           | Some e => (Normal (n, e), w)
           | None => (Throw TypeError, w)
           end
       | None => (Throw TypeError, w)
       end.

(** The world in which the class list of element [n] is [l]. *)
Definition with_classList (n : node) (l : DOMTokenList) (w : world) : world :=
  mkWorld (innerWidth w) (body w)
    (alter (λ e, mkElement (id_attr e) l (parentElement e)) n (elements w))
    (events w).

Definition set_classList (n : node) (l : DOMTokenList) : JS unit :=
  λ w, (Normal tt, with_classList n l w).

(** [o.classList.toggle(token)] *)
Definition classList_toggle (o : option node) (token : string) : JS bool :=
  '(n, e) ← deref o;
  let r := TokenList.toggle token (classList e) in
  set_classList n r.2;;
  ret r.1.

(** [o.classList.remove(token)] *)
Definition classList_remove (o : option node) (token : string) : JS unit :=
  '(n, e) ← deref o;
  set_classList n (TokenList.remove token (classList e)).

(** [o.classList.contains(token)] *)
Definition classList_contains (o : option node) (token : string) : JS bool :=
  '(n, e) ← deref o;
  ret (TokenList.contains token (classList e)).

(** [o.parentElement] *)
Definition get_parentElement (o : option node) : JS (option node) :=
  '(n, e) ← deref o;
  ret (parentElement e).

(** Walk up from [m] along [parentElement] looking for [a]. *)
Fixpoint inclusive_descendant (els : list Element) (fuel : nat) (a m : node) : bool :=
  if bool_decide (m = a) then true
  else match fuel with
       | O => false
       | S fuel' =>
           match els !! m with
           | Some e =>
               match parentElement e with
               | Some p => inclusive_descendant els fuel' a p
               | None => false
               end
           | None => false
           end
       end.

(** Whether [other] is element [n] itself or lies below it.  The
    document is below no element. *)
Definition contains_in (els : list Element) (n : node) (other : EventTarget) : bool :=
  match other with
  | TargetDocument => false
  | TargetElement m => inclusive_descendant els (length els) n m
  end.

(** [o.contains(other)]: [o] is read first, then the argument is
    evaluated. *)
Definition node_contains (o : option node) (other : JS EventTarget) : JS bool :=
  '(n, _) ← deref o;
  t ← other;
  λ w, (Normal (contains_in (elements w) n t), w).

Definition deref_event (ev : event) : JS Event :=
  λ w, match events w !! ev with
       | Some e => (Normal e, w)
       | None => (Throw TypeError, w)
       end.

(** [event.target] *)
Definition event_target (ev : event) : JS EventTarget :=
  e ← deref_event ev; ret (target e).

(** The effect of [preventDefault()] on an event object: the canceled
    flag is set when the event is cancelable. *)
Definition prevent (e : Event) : Event :=
  mkEvent (target e) (cancelable e) (cancelable e || defaultPrevented e).

Definition with_prevented (ev : event) (w : world) : world :=
  mkWorld (innerWidth w) (body w) (elements w) (alter prevent ev (events w)).

(** [event.preventDefault()] *)
Definition preventDefault (ev : event) : JS unit :=
  _ ← deref_event ev;
  λ w, (Normal tt, with_prevented ev w).

(** ** The script *)

Definition toggleSidebar : JS unit :=
  body ← document_body;
  sidebar ← getElementById "main-sidebar";
  width ← window_innerWidth;
  if 991 <? width then
    classList_toggle body "sidebar-collapse";; ret tt
  else
    classList_toggle sidebar "sidebar-open";; ret tt.

Definition toggleTreeview (element : node) (event : event) : JS unit :=
  preventDefault event;;
  parent ← get_parentElement (Some element);
  classList_toggle parent "menu-open";; ret tt.

Definition handleResize : JS unit :=
  sidebar ← getElementById "main-sidebar";
  width ← window_innerWidth;
  if 991 <? width then
    classList_remove sidebar "sidebar-open"
  else
    ret tt.

(** The anonymous click listener installed on the document. *)
Definition documentClick (event : event) : JS unit :=
  sidebar ← getElementById "main-sidebar";
  sidebarToggle ← querySelector (ClassSelector "sidebar-toggle");
  close ←
    (width ← window_innerWidth; ret (width <=? 991))
    &&& classList_contains sidebar "sidebar-open"
    &&& not_ (node_contains sidebar (event_target event))
    &&& not_ (node_contains sidebarToggle (event_target event));
  if close then classList_remove sidebar "sidebar-open" else ret tt.

(** ** Observations *)

(** [classList.contains] as seen from outside: whether element [n] of
    [w] carries class [c]. *)
Definition hasClass (w : world) (n : node) (c : string) : bool :=
  match elements w !! n with
  | Some e => TokenList.contains c (classList e)
  | None => false
  end.

(** The class list of element [n], if there is such an element. *)
Definition classes (w : world) (n : node) : option DOMTokenList :=
  classList <$> elements w !! n.

(** The element the script calls the sidebar. *)
Definition main_sidebar (w : world) : option node :=
  element_by_id "main-sidebar" (elements w).

(** The element the script calls the sidebar toggle. *)
Definition sidebar_toggle (w : world) : option node :=
  first_element (matches (ClassSelector "sidebar-toggle")) (elements w).

(** [window.innerWidth = width], as a resize of the window does. *)
Definition resize (width : Z) (w : world) : world :=
  mkWorld width (body w) (elements w) (events w).

(** Elements are listed in tree order: a parent comes before its
    children. *)
Definition tree_order (els : list Element) : Prop :=
  ∀ n e p, els !! n = Some e → parentElement e = Some p → (p < n)%nat.

(** [m] is [a] or lies below [a] in the tree. *)
Inductive below (els : list Element) (a : node) : node → Prop :=
  | below_self : below els a a
  | below_child m e p :
      els !! m = Some e → parentElement e = Some p →
      below els a p → below els a m.

(** ** The handlers as case tables *)

(** Outcome of [o.classList.toggle(c)] / [o.classList.remove(c)] as a
    statement: a null or dangling [o] throws before anything is
    written. *)
Definition update_classList (f : list string → list string)
    (o : option node) (w : world) : completion unit * world :=
  match o with
  | Some n =>
      match elements w !! n with
      | Some e => (Normal tt, with_classList n (f (classList e)) w)
      | None => (Throw TypeError, w)
      end
  | None => (Throw TypeError, w)
  end.

(** [toggleTreeview] by cases: a missing event object throws before
    anything is written, a missing element or parent throws after the
    event was marked. *)
Definition toggleTreeview_outcome (element : node) (ev : event) (w : world)
    : completion unit * world :=
  match events w !! ev with
  | None => (Throw TypeError, w)
  | Some _ =>
      match elements w !! element with
      | None => (Throw TypeError, with_prevented ev w)
      | Some el =>
          update_classList (λ l, (TokenList.toggle "menu-open" l).2)
            (parentElement el) (with_prevented ev w)
      end
  end.

(** The click listener by cases, in the order the tests are made. *)
Definition documentClick_outcome (ev : event) (w : world)
    : completion unit * world :=
  if 991 <? innerWidth w then (Normal tt, w) else
  match main_sidebar w with
  | None => (Throw TypeError, w)
  | Some s =>
      if negb (hasClass w s "sidebar-open") then (Normal tt, w) else
      match events w !! ev with
      | None => (Throw TypeError, w)
      | Some e =>
          if contains_in (elements w) s (target e) then (Normal tt, w) else
          match sidebar_toggle w with
          | None => (Throw TypeError, w)
          | Some t =>
              if contains_in (elements w) t (target e) then (Normal tt, w)
              else update_classList (TokenList.remove "sidebar-open") (Some s) w
          end
      end
  end.

(** ** Sample documents *)

(** A dashboard page: [html], [body], the header with the toggle
    button, the sidebar with one treeview entry, and the content area. *)
Definition page_elements (body_classes sidebar_classes : list string)
    : list Element :=
  [ mkElement "" [] None;
    mkElement "" body_classes (Some 0%nat);
    mkElement "" ["main-header"] (Some 1%nat);
    mkElement "" ["nav-link"; "sidebar-toggle"] (Some 2%nat);
    mkElement "main-sidebar" sidebar_classes (Some 1%nat);
    mkElement "" ["nav-item"; "has-treeview"] (Some 4%nat);
    mkElement "" ["nav-link"] (Some 5%nat);
    mkElement "" ["content-wrapper"] (Some 1%nat) ].

(** Clicks on the content area, on the treeview link, on the toggle
    button, and one dispatched at the document itself. *)
Definition page_events : list Event :=
  [ mkEvent (TargetElement 7) true false;
    mkEvent (TargetElement 6) true false;
    mkEvent (TargetElement 3) true false;
    mkEvent TargetDocument false false ].

Definition page (width : Z) (body_classes sidebar_classes : list string) : world :=
  mkWorld width (Some 1%nat) (page_elements body_classes sidebar_classes) page_events.

(** The same page without the sidebar and without the toggle button. *)
Definition bare_page (width : Z) : world :=
  mkWorld width (Some 1%nat)
    [ mkElement "" [] None;
      mkElement "" ["layout-top-nav"] (Some 0%nat);
      mkElement "" ["content-wrapper"] (Some 1%nat) ]
    [ mkEvent (TargetElement 2) true false ].

(** ** What the handlers leave alone *)

(** [w'] has the same window, body and tree as [w]: the same elements
    with the same ids and parents.  Only class lists may differ. *)
Definition same_tree (w w' : world) : Prop :=
  innerWidth w' = innerWidth w
  ∧ body w' = body w
  ∧ ∀ n, id_attr <$> elements w' !! n = id_attr <$> elements w !! n
         ∧ parentElement <$> elements w' !! n = parentElement <$> elements w !! n.

(** Every class list is a set: no token occurs twice. *)
Definition token_sets (w : world) : Prop :=
  ∀ n e, elements w !! n = Some e → NoDup (classList e).

(** ** Listeners and events *)

(** Where the script installs listeners. *)
Inductive listener_target := OnWindow | OnDocument.

(** The function objects the script hands to [addEventListener]: the
    callback for [DOMContentLoaded], the global [handleResize], and the
    click closures.  The function expression for the click listener is
    evaluated inside the callback, so every run of the callback makes a
    new closure; [k] numbers them. *)
Inductive callback :=
  | init_callback
  | handleResize_callback
  | click_callback (k : nat).

Record listener := mkListener {
  on_target : listener_target;
  event_type : string;
  callback_of : callback
}.

#[global] Instance listener_target_eq_dec : EqDecision listener_target.
Proof. solve_decision. Defined.
#[global] Instance callback_eq_dec : EqDecision callback.
Proof. solve_decision. Defined.
#[global] Instance listener_eq_dec : EqDecision listener.
Proof. solve_decision. Defined.

(** A page with the script loaded: the document and window, the
    installed listeners in the order they were added, and the number of
    click closures made so far. *)
Record browser := mkBrowser {
  dom : world;
  listeners : list listener;
  closures : nat
}.

(** [target.addEventListener(type, callback)]: a listener with the same
    target, type and callback object is not added a second time. *)
Definition addEventListener (t : listener_target) (type : string)
    (cb : callback) (b : browser) : browser :=
  if bool_decide (mkListener t type cb ∈ listeners b) then b
  else mkBrowser (dom b) (listeners b ++ [mkListener t type cb]) (closures b).

(** The body of the [DOMContentLoaded] callback. *)
Definition onDOMContentLoaded (b : browser) : browser :=
  let b1 := addEventListener OnWindow "resize" handleResize_callback b in
  addEventListener OnDocument "click" (click_callback (closures b1))
    (mkBrowser (dom b1) (listeners b1) (S (closures b1))).

(** The page right after the script ran at top level: the functions
    are defined and the [DOMContentLoaded] callback is installed. *)
Definition script (w : world) : browser :=
  addEventListener OnDocument "DOMContentLoaded" init_callback
    (mkBrowser w [] 0%nat).

(** The events the script listens for.  A resize carries the new
    window width, a click its event object. *)
Inductive browser_event :=
  | DOMContentLoaded
  | Resize (width : Z)
  | Click (ev : event).

#[global] Instance browser_event_eq_dec : EqDecision browser_event.
Proof. solve_decision. Defined.

Definition type_of (e : browser_event) : string :=
  match e with
  | DOMContentLoaded => "DOMContentLoaded"
  | Resize _ => "resize"
  | Click _ => "click"
  end.

(** The part of the propagation path listeners are installed on:
    [DOMContentLoaded] and clicks reach the document and then the
    window, a resize is fired at the window. *)
Definition path_of (e : browser_event) : list listener_target :=
  match e with
  | DOMContentLoaded => [OnDocument; OnWindow]
  | Resize _ => [OnWindow]
  | Click _ => [OnDocument; OnWindow]
  end.

Definition on_dom (f : world → world) (b : browser) : browser :=
  mkBrowser (f (dom b)) (listeners b) (closures b).

(** Calling a listener.  An exception thrown by a listener is reported
    and dispatch goes on, so only the world the call leaves behind
    matters.  A click closure is only installed for clicks. *)
Definition call (cb : callback) (e : browser_event) (b : browser) : browser :=
  match cb with
  | init_callback => onDOMContentLoaded b
  | handleResize_callback => on_dom (exec handleResize) b
  | click_callback _ =>
      match e with
      | Click ev => on_dom (exec (documentClick ev)) b
      | _ => b
      end
  end.

(** The listeners of target [t] an event invokes, in the order they
    were added. *)
Definition listeners_on (t : listener_target) (e : browser_event)
    (ls : list listener) : list listener :=
  filter (λ l, on_target l = t ∧ event_type l = type_of e) ls.

(** Invoking the listeners of one target: the list is copied before the
    first listener runs, so a listener added meanwhile is not invoked. *)
Definition invoke (e : browser_event) (b : browser) (t : listener_target)
    : browser :=
  foldl (λ b l, call (callback_of l) e b) b (listeners_on t e (listeners b)).

(** Dispatching an event: a resize has changed [window.innerWidth];
    the targets on the path are visited in order. *)
Definition dispatch (e : browser_event) (b : browser) : browser :=
  let b0 := match e with
            | Resize width => on_dom (resize width) b
            | _ => b
            end in
  foldl (invoke e) b0 (path_of e).

(** What can happen on the page: the browser fires an event, or the
    markup calls one of the two global toggles. *)
Inductive action :=
  | Fire (e : browser_event)
  | CallToggleSidebar
  | CallToggleTreeview (element : node) (ev : event).

#[global] Instance action_eq_dec : EqDecision action.
Proof. solve_decision. Defined.

Definition step (b : browser) (a : action) : browser :=
  match a with
  | Fire e => dispatch e b
  | CallToggleSidebar => on_dom (exec toggleSidebar) b
  | CallToggleTreeview element ev => on_dom (exec (toggleTreeview element ev)) b
  end.

Definition run (acts : list action) (b : browser) : browser :=
  foldl step b acts.

(** The listeners installed after [k] runs of the [DOMContentLoaded]
    callback. *)
Definition installed (k : nat) : list listener :=
  mkListener OnDocument "DOMContentLoaded" init_callback
  :: match k with
     | O => []
     | S _ =>
         mkListener OnWindow "resize" handleResize_callback
         :: ((λ i, mkListener OnDocument "click" (click_callback i)) <$> seq 0 k)
     end.

(** How often [DOMContentLoaded] is fired in a list of actions. *)
Definition loads (acts : list action) : nat :=
  length (filter (λ a, a = Fire DOMContentLoaded) acts).

(** Replace what the hypotheses already determine and reduce. *)
Ltac js_simpl :=
  repeat (simpl;
          match goal with
          | H : ?x = _ |- context [?x] => rewrite H
          end);
  simpl.

(** ** Facts about token lists *)

Section TokenListFacts.
Implicit Types (token t : string) (l : DOMTokenList).

Lemma contains_true token l : TokenList.contains token l = true ↔ token ∈ l.
Proof. unfold TokenList.contains. apply bool_decide_eq_true. Qed.

Lemma contains_false token l : TokenList.contains token l = false ↔ token ∉ l.
Proof. unfold TokenList.contains. apply bool_decide_eq_false. Qed.

Lemma contains_ext t l l' :
  (t ∈ l ↔ t ∈ l') → TokenList.contains t l = TokenList.contains t l'.
Proof. intros H. unfold TokenList.contains. by apply bool_decide_ext. Qed.

Lemma elem_of_remove token t l :
  t ∈ TokenList.remove token l ↔ t ∈ l ∧ t ≠ token.
Proof. unfold TokenList.remove. rewrite list_elem_of_filter. tauto. Qed.

Lemma contains_remove_same token l :
  TokenList.contains token (TokenList.remove token l) = false.
Proof. apply contains_false. rewrite elem_of_remove. tauto. Qed.

Lemma contains_remove_other token t l :
  t ≠ token →
  TokenList.contains t (TokenList.remove token l) = TokenList.contains t l.
Proof. intros Hne. apply contains_ext. rewrite elem_of_remove. tauto. Qed.

Lemma contains_remove_le token t l :
  TokenList.contains t (TokenList.remove token l) = true →
  TokenList.contains t l = true.
Proof. rewrite !contains_true, elem_of_remove. tauto. Qed.

Lemma remove_absent token l :
  TokenList.contains token l = false → TokenList.remove token l = l.
Proof.
  rewrite contains_false. intros Hnot. unfold TokenList.remove.
  induction l as [|x l IH]; [done|].
  apply not_elem_of_cons in Hnot as [Hx Hl].
  rewrite filter_cons_True by (simpl; congruence). by rewrite IH.
Qed.

Lemma contains_toggle_same token l :
  TokenList.contains token (TokenList.toggle token l).2
  = negb (TokenList.contains token l).
Proof.
  unfold TokenList.toggle.
  destruct (TokenList.contains token l) eqn:Hc; simpl.
  - apply contains_remove_same.
  - apply contains_true, elem_of_app. right. by apply list_elem_of_singleton.
Qed.

Lemma contains_toggle_other token t l :
  t ≠ token →
  TokenList.contains t (TokenList.toggle token l).2 = TokenList.contains t l.
Proof.
  intros Hne. unfold TokenList.toggle.
  destruct (TokenList.contains token l); simpl.
  - by apply contains_remove_other.
  - apply contains_ext. rewrite elem_of_app, list_elem_of_singleton. tauto.
Qed.

(** The value [toggle] returns is the new presence of the token. *)
Lemma toggle_result token l :
  (TokenList.toggle token l).1 = negb (TokenList.contains token l).
Proof. unfold TokenList.toggle. by destruct (TokenList.contains token l). Qed.

Lemma contains_toggle_twice token t l :
  TokenList.contains t (TokenList.toggle token (TokenList.toggle token l).2).2
  = TokenList.contains t l.
Proof.
  destruct (decide (t = token)) as [->|Hne].
  - rewrite !contains_toggle_same. apply negb_involutive.
  - by rewrite !contains_toggle_other.
Qed.

(** Tokens other than the toggled one keep their relative order. *)
Lemma toggle_others token l :
  TokenList.remove token (TokenList.toggle token l).2 = TokenList.remove token l.
Proof.
  unfold TokenList.toggle.
  destruct (TokenList.contains token l); simpl.
  - unfold TokenList.remove. rewrite list_filter_filter.
    apply list_filter_iff. tauto.
  - unfold TokenList.remove. rewrite filter_app, filter_cons_False by (simpl; tauto).
    by rewrite filter_nil, app_nil_r.
Qed.

End TokenListFacts.

(** ** Facts about the element store *)

Section WorldFacts.
Implicit Types (w : world) (n m : node) (c : string) (l : list string).

Lemma lookup_with_classList_same n l w e :
  elements w !! n = Some e →
  elements (with_classList n l w) !! n
  = Some (mkElement (id_attr e) l (parentElement e)).
Proof. intros H. simpl. by rewrite list_lookup_alter_eq, H. Qed.

Lemma lookup_with_classList_other n m l w :
  m ≠ n → elements (with_classList n l w) !! m = elements w !! m.
Proof. intros H. simpl. by rewrite list_lookup_alter_ne. Qed.

Lemma hasClass_with_classList_same n l w c :
  is_Some (elements w !! n) →
  hasClass (with_classList n l w) n c = TokenList.contains c l.
Proof.
  intros [e He]. unfold hasClass.
  by rewrite (lookup_with_classList_same _ _ _ _ He).
Qed.

Lemma hasClass_with_classList_other n m l w c :
  m ≠ n → hasClass (with_classList n l w) m c = hasClass w m c.
Proof. intros H. unfold hasClass. by rewrite lookup_with_classList_other. Qed.

Lemma hasClass_classes w w' n c :
  classes w' n = classes w n → hasClass w' n c = hasClass w n c.
Proof.
  unfold classes, hasClass.
  destruct (elements w' !! n), (elements w !! n); simpl; congruence.
Qed.

Lemma classes_with_classList_other n m l w :
  m ≠ n → classes (with_classList n l w) m = classes w m.
Proof. intros H. unfold classes. by rewrite lookup_with_classList_other. Qed.

(** Rewriting a class list to one with the same presence of [c]
    changes no observation of [c]. *)
Lemma hasClass_with_classList_keep n l w c e :
  elements w !! n = Some e →
  TokenList.contains c l = TokenList.contains c (classList e) →
  ∀ m, hasClass (with_classList n l w) m c = hasClass w m c.
Proof.
  intros He Hc m. destruct (decide (m = n)) as [->|Hne].
  - rewrite hasClass_with_classList_same by eauto.
    unfold hasClass. by rewrite He.
  - by apply hasClass_with_classList_other.
Qed.

Lemma with_classList_id n w e :
  elements w !! n = Some e → with_classList n (classList e) w = w.
Proof.
  intros He. destruct w as [iw b els evs]. unfold with_classList. simpl in *.
  f_equal. apply list_eq. intros i.
  destruct (decide (i = n)) as [->|Hne].
  - rewrite list_lookup_alter_eq, He. simpl. by destruct e.
  - by rewrite list_lookup_alter_ne.
Qed.

Lemma first_element_cons (P : Element → bool) e els :
  first_element P (e :: els)
  = if P e then Some 0%nat else S <$> first_element P els.
Proof.
  unfold first_element. simpl.
  destruct (P e) eqn:HP; case_decide; try congruence; [done|].
  by destruct (list_find _ els) as [[i x]|].
Qed.

(** A lookup result is an element of the document that satisfies the
    test. *)
Lemma first_element_Some (P : Element → bool) els n :
  first_element P els = Some n → ∃ e, els !! n = Some e ∧ P e = true.
Proof.
  unfold first_element. intros H.
  destruct (list_find _ els) as [[i x]|] eqn:Hf; [|done].
  simpl in H. injection H as <-.
  apply list_find_Some in Hf as (Hi & Hx & _). eauto.
Qed.

(** Changing an element without changing the outcome of the test does
    not change the lookup result. *)
Lemma first_element_alter (P : Element → bool) (f : Element → Element) n els :
  (∀ e, P (f e) = P e) →
  first_element P (alter f n els) = first_element P els.
Proof.
  intros Hf. revert n. induction els as [|e els IH]; intros n; [done|].
  destruct n as [|n]; simpl; rewrite !first_element_cons.
  - by rewrite Hf.
  - change (list_alter f n els) with (alter f n els). by rewrite IH.
Qed.

Lemma main_sidebar_with_classList n l w :
  main_sidebar (with_classList n l w) = main_sidebar w.
Proof. unfold main_sidebar, element_by_id. simpl. by apply first_element_alter. Qed.

Lemma main_sidebar_valid w s :
  main_sidebar w = Some s → is_Some (elements w !! s).
Proof. intros H. apply first_element_Some in H as (e & He & _). eauto. Qed.

Lemma sidebar_toggle_valid w t :
  sidebar_toggle w = Some t → is_Some (elements w !! t).
Proof. intros H. apply first_element_Some in H as (e & He & _). eauto. Qed.

End WorldFacts.

(** ** What each handler does, in one equation *)

Section Runs.
Implicit Types (w : world) (n m : node) (c : string) (ev : event).

Lemma toggle_statement_run o c w :
  (classList_toggle o c;; ret tt) w
  = update_classList (λ l, (TokenList.toggle c l).2) o w.
Proof.
  unfold update_classList, classList_toggle, bind, deref, set_classList, ret.
  destruct o as [n|]; [|done]. by destruct (elements w !! n).
Qed.

Lemma classList_remove_run o c w :
  classList_remove o c w = update_classList (TokenList.remove c) o w.
Proof.
  unfold update_classList, classList_remove, bind, deref, set_classList.
  destruct o as [n|]; [|done]. by destruct (elements w !! n).
Qed.

Lemma toggleSidebar_run w :
  toggleSidebar w
  = if 991 <? innerWidth w
    then update_classList (λ l, (TokenList.toggle "sidebar-collapse" l).2) (body w) w
    else update_classList (λ l, (TokenList.toggle "sidebar-open" l).2) (main_sidebar w) w.
Proof.
  unfold toggleSidebar.
  unfold bind at 1, document_body. unfold bind at 1, getElementById.
  unfold bind at 1, window_innerWidth.
  fold (main_sidebar w).
  destruct (991 <? innerWidth w); apply toggle_statement_run.
Qed.

Lemma handleResize_run w :
  handleResize w
  = if 991 <? innerWidth w
    then update_classList (TokenList.remove "sidebar-open") (main_sidebar w) w
    else (Normal tt, w).
Proof.
  unfold handleResize.
  unfold bind at 1, getElementById. unfold bind at 1, window_innerWidth.
  fold (main_sidebar w).
  destruct (991 <? innerWidth w); [apply classList_remove_run | done].
Qed.

Lemma toggleTreeview_run element ev w :
  toggleTreeview element ev w = toggleTreeview_outcome element ev w.
Proof.
  unfold toggleTreeview, toggleTreeview_outcome.
  unfold bind at 1, preventDefault. unfold bind at 1, deref_event.
  destruct (events w !! ev) as [e|]; [|done].
  unfold bind at 1, get_parentElement. unfold bind at 1, deref.
  change (elements (with_prevented ev w)) with (elements w).
  destruct (elements w !! element) as [el|]; [|done].
  unfold ret at 1. apply toggle_statement_run.
Qed.

Lemma documentClick_run ev w :
  documentClick ev w = documentClick_outcome ev w.
Proof.
  unfold documentClick, documentClick_outcome, update_classList, hasClass.
  unfold and_then, not_, classList_contains, classList_remove, node_contains,
    event_target, deref_event, deref, set_classList, getElementById,
    querySelector, window_innerWidth, bind, ret.
  fold (main_sidebar w). fold (sidebar_toggle w).
  rewrite Z.leb_antisym.
  destruct (991 <? innerWidth w); simpl; [done|].
  destruct (main_sidebar w) as [s|] eqn:Hs; [|done].
  destruct (main_sidebar_valid _ _ Hs) as [se Hse]. js_simpl.
  destruct (TokenList.contains "sidebar-open" (classList se)); js_simpl; [|done].
  destruct (events w !! ev) as [e|] eqn:He; js_simpl; [|done].
  destruct (contains_in (elements w) s (target e)); js_simpl; [done|].
  destruct (sidebar_toggle w) as [t|] eqn:Ht; [|done].
  destruct (sidebar_toggle_valid _ _ Ht) as [te Hte]. js_simpl.
  destruct (contains_in (elements w) t (target e)); js_simpl; done.
Qed.

End Runs.

(** ** Facts about [contains] *)

Section ContainsFacts.
Implicit Types (els : list Element) (a m : node).

Lemma inclusive_descendant_sound els fuel a m :
  inclusive_descendant els fuel a m = true → below els a m.
Proof.
  revert m. induction fuel as [|fuel IH]; intros m; simpl;
    case_bool_decide as Hm; subst; try (intros; by constructor); [done|].
  destruct (els !! m) as [e|] eqn:He; [|done].
  destruct (parentElement e) as [p|] eqn:Hp; [|done].
  intros H. eapply below_child; eauto.
Qed.

Lemma inclusive_descendant_complete els fuel a m :
  tree_order els → (m ≤ fuel)%nat → below els a m →
  inclusive_descendant els fuel a m = true.
Proof.
  intros Hord. revert m. induction fuel as [|fuel IH]; intros m Hle Hb; simpl;
    case_bool_decide as Hm; try done;
    destruct Hb as [|m e p He Hp Hb]; try done;
    pose proof (Hord _ _ _ He Hp) as Hlt; [lia|].
  rewrite He, Hp. apply IH; [lia | done].
Qed.

(** On a document in tree order the walk is long enough: [contains]
    answers exactly whether the target lies below the element. *)
Lemma contains_in_below els a m :
  tree_order els →
  contains_in els a (TargetElement m) = true ↔ below els a m.
Proof.
  intros Hord. simpl. split; [apply inclusive_descendant_sound|].
  intros Hb. destruct (decide (m = a)) as [->|Hne].
  - destruct (length els); simpl; by rewrite bool_decide_eq_true_2.
  - apply inclusive_descendant_complete; [done| |done].
    destruct Hb as [|m e p He _ _]; [done|].
    apply lookup_lt_Some in He. lia.
Qed.

Lemma contains_in_document els a : contains_in els a TargetDocument = false.
Proof. done. Qed.

Lemma contains_in_self els a : contains_in els a (TargetElement a) = true.
Proof. simpl. destruct (length els); simpl; by rewrite bool_decide_eq_true_2. Qed.

End ContainsFacts.

(** ** Facts about single class-list updates *)

Section UpdateFacts.
Implicit Types (w : world) (n m : node) (c : string) (o : option node).
Variable f : list string → list string.

Lemma update_classList_Some n e w :
  elements w !! n = Some e →
  update_classList f (Some n) w = (Normal tt, with_classList n (f (classList e)) w).
Proof. intros He. unfold update_classList. by rewrite He. Qed.

(** The update writes nothing, or exactly one class list. *)
Lemma update_classList_cases o w :
  (update_classList f o w).2 = w
  ∨ ∃ n e, o = Some n ∧ elements w !! n = Some e
           ∧ update_classList f o w
             = (Normal tt, with_classList n (f (classList e)) w).
Proof.
  unfold update_classList. destruct o as [n|]; [|by left].
  destruct (elements w !! n) as [e|] eqn:He; [|by left]. right. eauto.
Qed.

Lemma update_classList_other o w m :
  o ≠ Some m →
  classes (update_classList f o w).2 m = classes w m.
Proof.
  intros Ho. destruct (update_classList_cases o w) as [->|(n & e & -> & He & ->)];
    [done|]. simpl. apply classes_with_classList_other. congruence.
Qed.

Lemma update_classList_keep o w c :
  (∀ l, TokenList.contains c (f l) = TokenList.contains c l) →
  ∀ m, hasClass (update_classList f o w).2 m c = hasClass w m c.
Proof.
  intros Hf m. destruct (update_classList_cases o w) as [->|(n & e & -> & He & ->)];
    [done|]. simpl. by apply hasClass_with_classList_keep with e.
Qed.

Lemma update_classList_hasClass n e w c :
  elements w !! n = Some e →
  hasClass (update_classList f (Some n) w).2 n c
  = TokenList.contains c (f (classList e)).
Proof.
  intros He. rewrite (update_classList_Some _ _ _ He). simpl.
  apply hasClass_with_classList_same. eauto.
Qed.

Lemma update_classList_main_sidebar o w :
  main_sidebar (update_classList f o w).2 = main_sidebar w.
Proof.
  destruct (update_classList_cases o w) as [->|(n & e & -> & He & ->)];
    [done|]. apply main_sidebar_with_classList.
Qed.

Lemma update_classList_fixed o w :
  innerWidth (update_classList f o w).2 = innerWidth w
  ∧ body (update_classList f o w).2 = body w
  ∧ events (update_classList f o w).2 = events w.
Proof.
  by destruct (update_classList_cases o w) as [->|(n & e & -> & He & ->)].
Qed.

End UpdateFacts.

(** ** Toggling and removing one class on one element *)

Section FlagFacts.
Implicit Types (w : world) (n m : node) (c : string) (o : option node).

Lemma toggle_update_flips n e w c :
  elements w !! n = Some e →
  hasClass (update_classList (λ l, (TokenList.toggle c l).2) (Some n) w).2 n c
  = negb (hasClass w n c)
  ∧ ∀ m c', (m, c') ≠ (n, c) →
      hasClass (update_classList (λ l, (TokenList.toggle c l).2) (Some n) w).2 m c'
      = hasClass w m c'.
Proof.
  intros He. rewrite (update_classList_Some _ _ _ _ He). simpl. split.
  - rewrite hasClass_with_classList_same by eauto.
    unfold hasClass. rewrite He. apply contains_toggle_same.
  - intros m c' Hne. destruct (decide (m = n)) as [->|Hm].
    + rewrite hasClass_with_classList_same by eauto.
      unfold hasClass. rewrite He. apply contains_toggle_other. congruence.
    + by apply hasClass_with_classList_other.
Qed.

Lemma toggle_update_other o w c c' :
  c' ≠ c →
  ∀ m, hasClass (update_classList (λ l, (TokenList.toggle c l).2) o w).2 m c'
       = hasClass w m c'.
Proof.
  intros Hne. apply update_classList_keep.
  intros l. by apply contains_toggle_other.
Qed.

(** Toggling the same class on the same element twice restores every
    flag of every element. *)
Lemma toggle_update_twice o w c m c' :
  hasClass (update_classList (λ l, (TokenList.toggle c l).2) o
              (update_classList (λ l, (TokenList.toggle c l).2) o w).2).2 m c'
  = hasClass w m c'.
Proof.
  destruct (update_classList_cases (λ l, (TokenList.toggle c l).2) o w)
    as [Hid|(n & e & -> & He & Hrun)].
  - by rewrite !Hid.
  - rewrite Hrun. cbn [snd].
    pose proof (lookup_with_classList_same n (TokenList.toggle c (classList e)).2
                  w e He) as He'.
    rewrite (update_classList_Some _ _ _ _ He'). cbn [snd classList].
    destruct (decide (m = n)) as [->|Hm].
    + rewrite hasClass_with_classList_same by eauto.
      unfold hasClass. rewrite He. apply contains_toggle_twice.
    + by rewrite !hasClass_with_classList_other.
Qed.

Lemma remove_update_other o w c c' :
  c' ≠ c →
  ∀ m, hasClass (update_classList (TokenList.remove c) o w).2 m c'
       = hasClass w m c'.
Proof.
  intros Hne. apply update_classList_keep.
  intros l. by apply contains_remove_other.
Qed.

Lemma remove_update_gone n w c :
  is_Some (elements w !! n) →
  hasClass (update_classList (TokenList.remove c) (Some n) w).2 n c = false.
Proof.
  intros [e He]. rewrite (update_classList_hasClass _ _ _ _ _ He).
  apply contains_remove_same.
Qed.

(** Removing never sets a flag. *)
Lemma remove_update_le o w c m c' :
  hasClass (update_classList (TokenList.remove c) o w).2 m c' = true →
  hasClass w m c' = true.
Proof.
  destruct (update_classList_cases (TokenList.remove c) o w)
    as [->|(n & e & -> & He & ->)]; [done|]. simpl.
  destruct (decide (m = n)) as [->|Hm].
  - rewrite hasClass_with_classList_same by eauto.
    unfold hasClass. rewrite He. apply contains_remove_le.
  - by rewrite hasClass_with_classList_other.
Qed.

Lemma remove_update_classes o w c m :
  classes (update_classList (TokenList.remove c) o w).2 m = classes w m
  ∨ (o = Some m
     ∧ classes (update_classList (TokenList.remove c) o w).2 m
       = TokenList.remove c <$> classes w m).
Proof.
  destruct (update_classList_cases (TokenList.remove c) o w)
    as [->|(n & e & -> & He & ->)]; [by left|]. simpl.
  destruct (decide (m = n)) as [->|Hm].
  - right. split; [done|]. unfold classes.
    by rewrite (lookup_with_classList_same _ _ _ _ He), He.
  - left. by apply classes_with_classList_other.
Qed.

(** Removing an absent class leaves the world as it is. *)
Lemma remove_update_absent n w c :
  is_Some (elements w !! n) → hasClass w n c = false →
  (update_classList (TokenList.remove c) (Some n) w).2 = w.
Proof.
  intros [e He] Hc. rewrite (update_classList_Some _ _ _ _ He). simpl.
  unfold hasClass in Hc. rewrite He in Hc.
  rewrite remove_absent by done. by apply with_classList_id.
Qed.

(** What the two closing handlers leave behind: the world as it was,
    or the world with [sidebar-open] removed from the sidebar. *)
Lemma handleResize_exec w :
  exec handleResize w = w
  ∨ exec handleResize w
    = (update_classList (TokenList.remove "sidebar-open") (main_sidebar w) w).2.
Proof.
  unfold exec. rewrite handleResize_run.
  destruct (991 <? innerWidth w); [by right | by left].
Qed.

Lemma documentClick_exec ev w :
  exec (documentClick ev) w = w
  ∨ exec (documentClick ev) w
    = (update_classList (TokenList.remove "sidebar-open") (main_sidebar w) w).2.
Proof.
  unfold exec. rewrite documentClick_run. unfold documentClick_outcome.
  destruct (991 <? innerWidth w); [by left|].
  destruct (main_sidebar w) as [s|]; [|by left].
  destruct (negb (hasClass w s "sidebar-open")); [by left|].
  destruct (events w !! ev) as [e|]; [|by left].
  destruct (contains_in (elements w) s (target e)); [by left|].
  destruct (sidebar_toggle w) as [t|]; [|by left].
  destruct (contains_in (elements w) t (target e)); [by left | by right].
Qed.

End FlagFacts.

(** ** Repeated calls *)

Section RepeatFacts.
Implicit Types (w : world) (n m : node) (c : string) (o : option node).
Variable f : list string → list string.

(** An update keeps every element in place, with its parent. *)
Lemma update_classList_parent o w m el :
  elements w !! m = Some el →
  ∃ el', elements (update_classList f o w).2 !! m = Some el'
         ∧ parentElement el' = parentElement el.
Proof.
  intros Hel. destruct (update_classList_cases f o w)
    as [->|(n & e & -> & He & ->)]; [eauto|]. simpl.
  destruct (decide (m = n)) as [->|Hm].
  - rewrite list_lookup_alter_eq, Hel. simpl. eauto.
  - rewrite list_lookup_alter_ne by done. eauto.
Qed.

Lemma update_classList_again o w a :
  (update_classList f o w).1 = Normal a →
  ∃ a', (update_classList f o (update_classList f o w).2).1 = Normal a'.
Proof.
  destruct (update_classList_cases f o w) as [Hid|(n & e & -> & He & Hrun)].
  - rewrite Hid. eauto.
  - intros _. rewrite Hrun. cbn [snd].
    pose proof (lookup_with_classList_same n (f (classList e)) w e He) as He'.
    rewrite (update_classList_Some _ _ _ _ He'). eauto.
Qed.

(** Class lists and event objects are written independently. *)
Lemma update_classList_with_prevented o ev w :
  update_classList f o (with_prevented ev w)
  = ((update_classList f o w).1, with_prevented ev (update_classList f o w).2).
Proof.
  unfold update_classList. destruct o as [n|]; [|done].
  change (elements (with_prevented ev w)) with (elements w).
  by destruct (elements w !! n).
Qed.

End RepeatFacts.

Section TreeviewFacts.
Implicit Types (w : world) (n m : node) (c : string) (ev : event).

Lemma hasClass_with_prevented ev w n c :
  hasClass (with_prevented ev w) n c = hasClass w n c.
Proof. done. Qed.

Lemma events_with_prevented_valid ev ev' w :
  is_Some (events w !! ev') → is_Some (events (with_prevented ev w) !! ev').
Proof.
  intros H. apply lookup_lt_is_Some. simpl. rewrite length_alter.
  by apply lookup_lt_is_Some.
Qed.

(** With a live event object, the world [toggleTreeview] leaves behind:
    the event is marked, and the parent of the element, if there is
    one, has [menu-open] toggled. *)
Lemma toggleTreeview_exec element ev w :
  is_Some (events w !! ev) →
  toggleTreeview element ev w
  = match elements w !! element with
    | Some el =>
        ((update_classList (λ l, (TokenList.toggle "menu-open" l).2)
            (parentElement el) w).1,
         with_prevented ev
           (update_classList (λ l, (TokenList.toggle "menu-open" l).2)
              (parentElement el) w).2)
    | None => (Throw TypeError, with_prevented ev w)
    end.
Proof.
  intros [e He]. rewrite toggleTreeview_run. unfold toggleTreeview_outcome.
  rewrite He. change (elements (with_prevented ev w)) with (elements w).
  destruct (elements w !! element) as [el|]; [|done].
  apply update_classList_with_prevented.
Qed.

End TreeviewFacts.

(** ** Missing elements and sample runs *)


(** On a narrow window [toggleSidebar()] reads from the sidebar: without
    one it throws and writes nothing. *)
Lemma toggleSidebar_mobile_without_sidebar (w : world) :
  main_sidebar w = None → innerWidth w ≤ 991 →
  toggleSidebar w = (Throw TypeError, w).
Proof.
  intros Hs Hw. apply Z.ltb_ge in Hw. by rewrite toggleSidebar_run, Hw, Hs.
Qed.

(** On a wide window [handleResize()] reads from the sidebar: without
    one it throws and writes nothing. *)
Lemma handleResize_desktop_without_sidebar (w : world) :
  main_sidebar w = None → 991 < innerWidth w →
  handleResize w = (Throw TypeError, w).
Proof.
  intros Hs Hw. apply Z.ltb_lt in Hw. by rewrite handleResize_run, Hw, Hs.
Qed.

(** The click listener reads from the toggle button only after the three
    earlier tests passed: without a toggle button it throws exactly then,
    and writes nothing. *)
Lemma documentClick_without_toggle (w : world) (ev : event) (e : Event) (s : node) :
  main_sidebar w = Some s → sidebar_toggle w = None →
  events w !! ev = Some e →
  documentClick ev w
  = if (innerWidth w <=? 991) && hasClass w s "sidebar-open"
       && negb (contains_in (elements w) s (target e))
    then (Throw TypeError, w) else (Normal tt, w).
Proof.
  intros Hs Ht He. rewrite documentClick_run. unfold documentClick_outcome.
  rewrite Hs, Ht, He, Z.leb_antisym.
  destruct (991 <? innerWidth w); [done|].
  destruct (hasClass w s "sidebar-open"); [|done].
  by destruct (contains_in (elements w) s (target e)).
Qed.

(** The click listener in terms of the tree: on a document in tree
    order, a click on an element outside the sidebar and outside the
    toggle button closes an open sidebar on a narrow window, and a click
    on an element inside the sidebar changes nothing. *)
Lemma documentClick_by_position
    (w : world) (ev : event) (e : Event) (s t m : node) :
  tree_order (elements w) →
  main_sidebar w = Some s → sidebar_toggle w = Some t →
  events w !! ev = Some e → target e = TargetElement m →
  innerWidth w ≤ 991 → hasClass w s "sidebar-open" = true →
  (¬ below (elements w) s m → ¬ below (elements w) t m →
   hasClass (exec (documentClick ev) w) s "sidebar-open" = false)
  ∧ (below (elements w) s m → exec (documentClick ev) w = w).
Proof.
  intros Hord Hs Ht He Htg Hw Hopen.
  unfold exec. rewrite documentClick_run. unfold documentClick_outcome.
  apply Z.ltb_ge in Hw. rewrite Hw, Hs, Hopen, He, Ht, Htg. cbn [negb].
  split.
  - intros Hns Hnt.
    rewrite <- contains_in_below in Hns, Hnt by done.
    apply not_true_is_false in Hns, Hnt. rewrite Hns, Hnt.
    apply remove_update_gone. by apply main_sidebar_valid.
  - intros Hin. apply contains_in_below in Hin; [|done]. by rewrite Hin.
Qed.

(** Without a parent ([html]) [toggleTreeview] throws after it has
    marked the event. *)
Example toggleTreeview_on_root :
  toggleTreeview 0 0 (page 1200 [] [])
  = (Throw TypeError, with_prevented 0 (page 1200 [] [])).
Proof. reflexivity. Qed.

(** A token toggled off and on again comes back at the end of the
    list: flags are restored, the order of the tokens need not be. *)
Example toggle_twice_order :
  (TokenList.toggle "sidebar-collapse"
     (TokenList.toggle "sidebar-collapse" ["sidebar-collapse"; "sidebar-mini"]).2).2
  = ["sidebar-mini"; "sidebar-collapse"].
Proof. reflexivity. Qed.

Example toggleSidebar_desktop_sample :
  classes (exec toggleSidebar (page 1200 ["sidebar-mini"] [])) 1
  = Some ["sidebar-mini"; "sidebar-collapse"].
Proof. reflexivity. Qed.

Example toggleSidebar_mobile_sample :
  classes (exec toggleSidebar (page 500 ["sidebar-mini"] ["main-sidebar"])) 4
  = Some ["main-sidebar"; "sidebar-open"].
Proof. reflexivity. Qed.

(** Clicks on the content area, inside the sidebar, on the toggle button
    and on the document, with the sidebar open on a narrow window. *)
Example documentClick_samples :
  let w := page 500 [] ["main-sidebar"; "sidebar-open"] in
  classes (exec (documentClick 0) w) 4 = Some ["main-sidebar"]
  ∧ documentClick 1 w = (Normal tt, w)
  ∧ documentClick 2 w = (Normal tt, w)
  ∧ classes (exec (documentClick 3) w) 4 = Some ["main-sidebar"].
Proof. repeat split; reflexivity. Qed.

(** ** Specification of the handlers *)

(** C1. [toggleSidebar()] on a window wider than 991 flips the presence
    of [sidebar-collapse] on the body; on a window of width at most 991 it
    flips the presence of [sidebar-open] on the element with id
    [main-sidebar] instead.  In either case the call completes and no
    other flag of any element changes. *)
Theorem toggleSidebar_flips_by_width (w : world) :
  (991 < innerWidth w → ∀ b, body w = Some b → is_Some (elements w !! b) →
     completes toggleSidebar w
     ∧ hasClass (exec toggleSidebar w) b "sidebar-collapse"
       = negb (hasClass w b "sidebar-collapse")
     ∧ ∀ n c, (n, c) ≠ (b, "sidebar-collapse") →
         hasClass (exec toggleSidebar w) n c = hasClass w n c)
  ∧
  (innerWidth w ≤ 991 → ∀ s, main_sidebar w = Some s →
     completes toggleSidebar w
     ∧ hasClass (exec toggleSidebar w) s "sidebar-open"
       = negb (hasClass w s "sidebar-open")
     ∧ ∀ n c, (n, c) ≠ (s, "sidebar-open") →
         hasClass (exec toggleSidebar w) n c = hasClass w n c).
Proof.
  unfold exec, completes. rewrite toggleSidebar_run. split.
  - intros Hw b Hb [e He]. apply Z.ltb_lt in Hw. rewrite Hw, Hb.
    split; [rewrite (update_classList_Some _ _ _ _ He); eauto|].
    by apply toggle_update_flips with e.
  - intros Hw s Hs. apply Z.ltb_ge in Hw. rewrite Hw, Hs.
    destruct (main_sidebar_valid _ _ Hs) as [e He].
    split; [rewrite (update_classList_Some _ _ _ _ He); eauto|].
    by apply toggle_update_flips with e.
Qed.

Lemma toggleSidebar_flips_by_width_witness :
  (991 < innerWidth (page 1200 [] [])
   ∧ body (page 1200 [] []) = Some 1%nat
   ∧ hasClass (exec toggleSidebar (page 1200 [] [])) 1 "sidebar-collapse"
     = negb (hasClass (page 1200 [] []) 1 "sidebar-collapse"))
  ∧
  (innerWidth (page 500 [] []) ≤ 991
   ∧ main_sidebar (page 500 [] []) = Some 4%nat
   ∧ hasClass (exec toggleSidebar (page 500 [] [])) 4 "sidebar-open"
     = negb (hasClass (page 500 [] []) 4 "sidebar-open")).
Proof.
  split.
  - split; [simpl; lia|]. split; [reflexivity|].
    apply (proj1 (toggleSidebar_flips_by_width (page 1200 [] []))
             ltac:(simpl; lia) 1%nat eq_refl).
    eexists. reflexivity.
  - split; [simpl; lia|]. split; [reflexivity|].
    apply (proj2 (toggleSidebar_flips_by_width (page 500 [] []))
             ltac:(simpl; lia) 4%nat eq_refl).
Defined.

(** C2. With the sidebar and the toggle button in the document, the
    click listener completes and removes [sidebar-open] from the sidebar
    exactly when the window is at most 991 wide, the sidebar carries
    [sidebar-open], and the click target lies neither in the sidebar nor
    in the toggle button.  Otherwise it changes nothing; in particular a
    click inside the sidebar changes nothing.  No other flag of any
    element ever changes. *)
Theorem documentClick_closes_exactly_when
    (w : world) (ev : event) (e : Event) (s t : node) :
  main_sidebar w = Some s → sidebar_toggle w = Some t →
  events w !! ev = Some e →
  let outside :=
    innerWidth w ≤ 991
    ∧ hasClass w s "sidebar-open" = true
    ∧ contains_in (elements w) s (target e) = false
    ∧ contains_in (elements w) t (target e) = false in
  completes (documentClick ev) w
  ∧ (hasClass w s "sidebar-open" = true
     ∧ hasClass (exec (documentClick ev) w) s "sidebar-open" = false
     ↔ outside)
  ∧ (¬ outside → exec (documentClick ev) w = w)
  ∧ (contains_in (elements w) s (target e) = true →
     exec (documentClick ev) w = w)
  ∧ (∀ n c, (n, c) ≠ (s, "sidebar-open") →
     hasClass (exec (documentClick ev) w) n c = hasClass w n c).
Proof.
  intros Hs Ht He outside. subst outside.
  destruct (main_sidebar_valid _ _ Hs) as [se Hse].
  unfold exec, completes. rewrite documentClick_run.
  unfold documentClick_outcome. rewrite Hs, Ht, He.
  assert (∀ n c, (n, c) ≠ (s, "sidebar-open") →
            hasClass (update_classList (TokenList.remove "sidebar-open")
                        (Some s) w).2 n c = hasClass w n c) as Hframe.
  { intros n c Hnc. destruct (decide (c = "sidebar-open")) as [->|Hc].
    - apply hasClass_classes, update_classList_other. congruence.
    - by apply remove_update_other. }
  destruct (Z.ltb_spec 991 (innerWidth w)) as [Hw|Hw]; simpl.
  { intuition (eauto; try congruence; try lia). }
  destruct (hasClass w s "sidebar-open") eqn:Hopen; simpl; cycle 1.
  { rewrite Hopen. intuition (eauto; try congruence). }
  destruct (contains_in (elements w) s (target e)) eqn:Hin; simpl.
  { rewrite Hopen. intuition (eauto; try congruence). }
  destruct (contains_in (elements w) t (target e)) eqn:Hint; simpl.
  { rewrite Hopen. intuition (eauto; try congruence). }
  pose proof (remove_update_gone s w "sidebar-open" (ex_intro _ se Hse)) as Hgone.
  rewrite (update_classList_Some _ _ _ _ Hse) in Hgone, Hframe.
  rewrite Hse. simpl in *.
  intuition (eauto; try congruence).
Qed.

Lemma documentClick_closes_exactly_when_witness :
  main_sidebar (page 500 [] ["sidebar-open"]) = Some 4%nat
  ∧ sidebar_toggle (page 500 [] ["sidebar-open"]) = Some 3%nat
  ∧ hasClass (exec (documentClick 0) (page 500 [] ["sidebar-open"])) 4
      "sidebar-open" = false
  ∧ exec (documentClick 1) (page 500 [] ["sidebar-open"])
    = page 500 [] ["sidebar-open"].
Proof.
  split; [reflexivity|]. split; [reflexivity|]. split.
  - apply (documentClick_closes_exactly_when (page 500 [] ["sidebar-open"])
             0 _ 4 3 eq_refl eq_refl eq_refl).
    repeat split; simpl; lia.
  - apply (documentClick_closes_exactly_when (page 500 [] ["sidebar-open"])
             1 _ 4 3 eq_refl eq_refl eq_refl).
    reflexivity.
Defined.

(** C3. [handleResize()] on a window wider than 991 removes
    [sidebar-open] from the sidebar and changes no other flag, so
    [sidebar-collapse] stays as it is; on a window of width at most 991 it
    changes nothing.  Hence, after a resize into the wide range, a resize
    back into the narrow range does not bring [sidebar-open] back. *)
Theorem handleResize_clears_open_one_way (w : world) :
  (991 < innerWidth w → ∀ s, main_sidebar w = Some s →
     completes handleResize w
     ∧ hasClass (exec handleResize w) s "sidebar-open" = false
     ∧ (∀ n c, c ≠ "sidebar-open" →
          hasClass (exec handleResize w) n c = hasClass w n c)
     ∧ ∀ n, hasClass (exec handleResize w) n "sidebar-collapse"
            = hasClass w n "sidebar-collapse")
  ∧ (innerWidth w ≤ 991 → handleResize w = (Normal tt, w))
  ∧ (∀ s wide narrow, main_sidebar w = Some s → 991 < wide → narrow ≤ 991 →
       hasClass
         (exec handleResize (resize narrow (exec handleResize (resize wide w))))
         s "sidebar-open" = false).
Proof.
  assert (∀ w', 991 < innerWidth w' → ∀ s, main_sidebar w' = Some s →
            completes handleResize w'
            ∧ hasClass (exec handleResize w') s "sidebar-open" = false
            ∧ (∀ n c, c ≠ "sidebar-open" →
                 hasClass (exec handleResize w') n c = hasClass w' n c)) as Hwide.
  { intros w' Hw s Hs. unfold exec, completes. rewrite handleResize_run.
    apply Z.ltb_lt in Hw. rewrite Hw, Hs.
    destruct (main_sidebar_valid _ _ Hs) as [e He].
    split; [rewrite (update_classList_Some _ _ _ _ He); eauto|].
    split; [apply remove_update_gone; eauto|].
    intros n c Hc. by apply remove_update_other. }
  assert (∀ w', innerWidth w' ≤ 991 → handleResize w' = (Normal tt, w')) as Hnarrow.
  { intros w' Hw. rewrite handleResize_run.
    apply Z.ltb_ge in Hw. by rewrite Hw. }
  split; [|split]; [|apply Hnarrow|].
  - intros Hw s Hs. destruct (Hwide w Hw s Hs) as (Hc & Hgone & Hframe).
    repeat split; [done..|]. intros n. by apply Hframe.
  - intros s wide narrow Hs Hwd Hnr.
    destruct (Hwide (resize wide w) Hwd s Hs) as (_ & Hgone & _).
    unfold exec at 1. rewrite Hnarrow by done. exact Hgone.
Qed.

Lemma handleResize_clears_open_one_way_witness :
  (991 < innerWidth (page 1200 ["sidebar-collapse"] ["sidebar-open"])
   ∧ hasClass (exec handleResize (page 1200 ["sidebar-collapse"] ["sidebar-open"]))
       4 "sidebar-open" = false)
  ∧ (innerWidth (page 500 [] ["sidebar-open"]) ≤ 991
     ∧ handleResize (page 500 [] ["sidebar-open"])
       = (Normal tt, page 500 [] ["sidebar-open"]))
  ∧ hasClass
      (exec handleResize
         (resize 500 (exec handleResize (resize 1200 (page 500 [] ["sidebar-open"])))))
      4 "sidebar-open" = false.
Proof.
  split; [split; [simpl; lia|]|split; [split; [simpl; lia|]|]].
  - apply (proj1 (handleResize_clears_open_one_way
                    (page 1200 ["sidebar-collapse"] ["sidebar-open"]))
             ltac:(simpl; lia) 4%nat eq_refl).
  - apply (proj1 (proj2 (handleResize_clears_open_one_way
                           (page 500 [] ["sidebar-open"])))).
    simpl; lia.
  - apply (proj2 (proj2 (handleResize_clears_open_one_way
                           (page 500 [] ["sidebar-open"])))
             4%nat 1200 500 eq_refl); lia.
Defined.

(** C4. On a window wider than 991 the click listener completes
    without a fault and changes nothing, whatever the document holds:
    the width test comes first, so neither the sidebar nor the toggle
    button is read from.  A sidebar without [sidebar-open] therefore
    stays without it. *)
Theorem documentClick_desktop_is_noop (w : world) (ev : event) :
  991 < innerWidth w →
  documentClick ev w = (Normal tt, w)
  ∧ completes (documentClick ev) w
  ∧ ∀ n, hasClass w n "sidebar-open" = false →
         hasClass (exec (documentClick ev) w) n "sidebar-open" = false.
Proof.
  intros Hw. apply Z.ltb_lt in Hw.
  assert (documentClick ev w = (Normal tt, w)) as Hrun.
  { rewrite documentClick_run. unfold documentClick_outcome. by rewrite Hw. }
  unfold completes, exec. rewrite Hrun. eauto.
Qed.

Lemma documentClick_desktop_is_noop_witness :
  (991 < innerWidth (page 1200 [] [])
   ∧ documentClick 0 (page 1200 [] []) = (Normal tt, page 1200 [] []))
  ∧ (main_sidebar (bare_page 1200) = None
     ∧ sidebar_toggle (bare_page 1200) = None
     ∧ documentClick 0 (bare_page 1200) = (Normal tt, bare_page 1200)).
Proof.
  split; [split; [simpl; lia|]|split; [reflexivity|split; [reflexivity|]]].
  - apply (documentClick_desktop_is_noop (page 1200 [] []) 0). simpl; lia.
  - apply (documentClick_desktop_is_noop (bare_page 1200) 0). simpl; lia.
Defined.

(** C5. A window exactly 991 wide counts as narrow everywhere:
    [toggleSidebar()] flips [sidebar-open] on the sidebar and leaves
    every [sidebar-collapse] flag alone, [handleResize()] changes
    nothing, and the click listener closes an open sidebar on a click
    outside the sidebar and the toggle button. *)
Theorem breakpoint_991_is_mobile (w : world) :
  innerWidth w = 991 →
  (∀ s, main_sidebar w = Some s →
     completes toggleSidebar w
     ∧ hasClass (exec toggleSidebar w) s "sidebar-open"
       = negb (hasClass w s "sidebar-open")
     ∧ ∀ n, hasClass (exec toggleSidebar w) n "sidebar-collapse"
            = hasClass w n "sidebar-collapse")
  ∧ handleResize w = (Normal tt, w)
  ∧ (∀ ev e s t,
       main_sidebar w = Some s → sidebar_toggle w = Some t →
       events w !! ev = Some e →
       hasClass w s "sidebar-open" = true →
       contains_in (elements w) s (target e) = false →
       contains_in (elements w) t (target e) = false →
       completes (documentClick ev) w
       ∧ hasClass (exec (documentClick ev) w) s "sidebar-open" = false).
Proof.
  intros Hw. split; [|split].
  - intros s Hs. unfold exec, completes. rewrite toggleSidebar_run, Hw, Hs.
    change (991 <? 991) with false. cbv iota.
    destruct (main_sidebar_valid _ _ Hs) as [e He].
    split; [rewrite (update_classList_Some _ _ _ _ He); eauto|].
    split; [by apply toggle_update_flips with e|].
    by apply toggle_update_other.
  - by rewrite handleResize_run, Hw.
  - intros ev e s t Hs Ht He Hopen Hin Hint.
    destruct (main_sidebar_valid _ _ Hs) as [se Hse].
    unfold exec, completes. rewrite documentClick_run.
    unfold documentClick_outcome.
    rewrite Hw, Hs, Hopen, He, Hin, Ht, Hint.
    change (991 <? 991) with false. cbv iota. cbn [negb].
    split; [rewrite (update_classList_Some _ _ _ _ Hse); eauto|].
    apply remove_update_gone. eauto.
Qed.

Lemma breakpoint_991_is_mobile_witness :
  innerWidth (page 991 ["sidebar-collapse"] ["sidebar-open"]) = 991
  ∧ hasClass (exec toggleSidebar (page 991 ["sidebar-collapse"] ["sidebar-open"]))
      4 "sidebar-open" = false
  ∧ handleResize (page 991 ["sidebar-collapse"] ["sidebar-open"])
    = (Normal tt, page 991 ["sidebar-collapse"] ["sidebar-open"])
  ∧ hasClass (exec (documentClick 0) (page 991 ["sidebar-collapse"] ["sidebar-open"]))
      4 "sidebar-open" = false.
Proof.
  pose proof (breakpoint_991_is_mobile
                (page 991 ["sidebar-collapse"] ["sidebar-open"]) eq_refl)
    as (Htoggle & Hresize & Hclick).
  split; [reflexivity|]. split; [|split; [exact Hresize|]].
  - destruct (Htoggle 4%nat eq_refl) as (_ & -> & _). reflexivity.
  - apply (Hclick 0%nat _ 4%nat 3%nat eq_refl eq_refl eq_refl);
      reflexivity.
Defined.

(** C6. For an element with a parent and a live event,
    [toggleTreeview(element, event)] completes, applies
    [preventDefault()] to the event (so a cancelable event ends up
    default-prevented), flips the presence of [menu-open] on the parent,
    and leaves every other class of the parent and the class list of
    every other element as it was. *)
Theorem toggleTreeview_prevents_and_flips
    (w : world) (element : node) (ev : event) (el : Element) (p : node) (e : Event) :
  elements w !! element = Some el → parentElement el = Some p →
  is_Some (elements w !! p) → events w !! ev = Some e →
  completes (toggleTreeview element ev) w
  ∧ events (exec (toggleTreeview element ev) w) !! ev = Some (prevent e)
  ∧ (cancelable e = true →
     defaultPrevented <$> events (exec (toggleTreeview element ev) w) !! ev
     = Some true)
  ∧ hasClass (exec (toggleTreeview element ev) w) p "menu-open"
    = negb (hasClass w p "menu-open")
  ∧ (∀ c, c ≠ "menu-open" →
     hasClass (exec (toggleTreeview element ev) w) p c = hasClass w p c)
  ∧ (∀ n, n ≠ p → classes (exec (toggleTreeview element ev) w) n = classes w n).
Proof.
  intros Hel Hp [ep Hep] He. unfold exec, completes.
  rewrite toggleTreeview_exec by eauto. rewrite Hel, Hp. cbn [fst snd].
  pose proof (toggle_update_flips p ep w "menu-open" Hep) as [Hflip Hframe].
  split; [rewrite (update_classList_Some _ _ _ _ Hep); eauto|].
  assert (events (with_prevented ev
            (update_classList (λ l, (TokenList.toggle "menu-open" l).2)
               (Some p) w).2) !! ev = Some (prevent e)) as Hev.
  { unfold with_prevented. cbn [events].
    destruct (update_classList_fixed (λ l, (TokenList.toggle "menu-open" l).2)
                (Some p) w) as (_ & _ & ->).
    by rewrite list_lookup_alter_eq, He. }
  split; [done|]. split.
  { intros Hc. rewrite Hev. simpl. by rewrite Hc. }
  rewrite !hasClass_with_prevented. split; [done|]. split.
  - intros c Hc. rewrite hasClass_with_prevented. apply Hframe. congruence.
  - intros n Hn. change (classes (with_prevented ev ?x) n) with (classes x n).
    apply update_classList_other. congruence.
Qed.

Lemma toggleTreeview_prevents_and_flips_witness :
  elements (page 1200 [] []) !! 6%nat
  = Some (mkElement "" ["nav-link"] (Some 5%nat))
  ∧ hasClass (exec (toggleTreeview 6 1) (page 1200 [] [])) 5 "menu-open"
    = negb (hasClass (page 1200 [] []) 5 "menu-open")
  ∧ defaultPrevented <$> events (exec (toggleTreeview 6 1) (page 1200 [] [])) !! 1%nat
    = Some true.
Proof.
  pose proof (toggleTreeview_prevents_and_flips (page 1200 [] []) 6 1 _ 5 _
                eq_refl eq_refl ltac:(eexists; reflexivity) eq_refl)
    as (_ & _ & Hprev & Hflip & _).
  split; [reflexivity|]. split; [exact Hflip|]. apply Hprev. reflexivity.
Defined.

(** C7. [toggleSidebar()] on a window of width at most 991 leaves the
    [sidebar-collapse] flag of the body, and of every other element, as
    it was, whether or not the call completes. *)
Theorem toggleSidebar_mobile_keeps_collapse (w : world) :
  innerWidth w ≤ 991 →
  body (exec toggleSidebar w) = body w
  ∧ ∀ n, hasClass (exec toggleSidebar w) n "sidebar-collapse"
         = hasClass w n "sidebar-collapse".
Proof.
  intros Hw. apply Z.ltb_ge in Hw. unfold exec.
  rewrite toggleSidebar_run, Hw. split.
  - apply update_classList_fixed.
  - by apply toggle_update_other.
Qed.

Lemma toggleSidebar_mobile_keeps_collapse_witness :
  innerWidth (page 500 ["sidebar-collapse"] []) ≤ 991
  ∧ hasClass (exec toggleSidebar (page 500 ["sidebar-collapse"] [])) 1
      "sidebar-collapse" = true
  ∧ hasClass (exec toggleSidebar (page 500 ["sidebar-collapse"] [])) 4
      "sidebar-open" = true.
Proof.
  split; [simpl; lia|]. split; [|reflexivity].
  rewrite (proj2 (toggleSidebar_mobile_keeps_collapse
                    (page 500 ["sidebar-collapse"] []) ltac:(simpl; lia))).
  reflexivity.
Defined.

(** C8. At a fixed window width two calls of [toggleSidebar()] in a
    row leave every flag of every element as it was, in particular
    [sidebar-collapse] on the body and [sidebar-open] on the sidebar, and
    the second call completes if the first did.  Two calls of
    [toggleTreeview] on the same element, each with a live event, leave
    every flag as it was, in particular [menu-open] on the parent, and
    again the second call completes if the first did. *)
Theorem double_toggle_restores_flags :
  (∀ w n c,
     hasClass (exec toggleSidebar (exec toggleSidebar w)) n c = hasClass w n c)
  ∧ (∀ w, completes toggleSidebar w →
          completes toggleSidebar (exec toggleSidebar w))
  ∧ (∀ w element ev1 ev2 n c,
       is_Some (events w !! ev1) → is_Some (events w !! ev2) →
       hasClass (exec (toggleTreeview element ev2)
                   (exec (toggleTreeview element ev1) w)) n c
       = hasClass w n c)
  ∧ (∀ w element ev1 ev2,
       is_Some (events w !! ev2) →
       completes (toggleTreeview element ev1) w →
       completes (toggleTreeview element ev2)
         (exec (toggleTreeview element ev1) w)).
Proof.
  assert (∀ w, exec toggleSidebar w
               = (update_classList
                    (λ l, (TokenList.toggle
                             (if 991 <? innerWidth w
                              then "sidebar-collapse" else "sidebar-open") l).2)
                    (if 991 <? innerWidth w then body w else main_sidebar w) w).2
               ∧ toggleSidebar w
                 = update_classList
                    (λ l, (TokenList.toggle
                             (if 991 <? innerWidth w
                              then "sidebar-collapse" else "sidebar-open") l).2)
                    (if 991 <? innerWidth w then body w else main_sidebar w) w)
    as Hside.
  { intros w. unfold exec. rewrite toggleSidebar_run.
    by destruct (991 <? innerWidth w). }
  assert (∀ w, innerWidth (exec toggleSidebar w) = innerWidth w
               ∧ body (exec toggleSidebar w) = body w
               ∧ main_sidebar (exec toggleSidebar w) = main_sidebar w) as Hsame.
  { intros w. rewrite (proj1 (Hside w)).
    pose proof (update_classList_fixed
                  (λ l, (TokenList.toggle
                           (if 991 <? innerWidth w
                            then "sidebar-collapse" else "sidebar-open") l).2)
                  (if 991 <? innerWidth w then body w else main_sidebar w) w)
      as (Hi & Hb & _).
    by rewrite Hi, Hb, update_classList_main_sidebar. }
  assert (∀ w element ev, is_Some (events w !! ev) →
            ∀ el, elements w !! element = Some el →
            toggleTreeview element ev w
            = ((update_classList (λ l, (TokenList.toggle "menu-open" l).2)
                  (parentElement el) w).1,
               with_prevented ev
                 (update_classList (λ l, (TokenList.toggle "menu-open" l).2)
                    (parentElement el) w).2)) as Htree.
  { intros w element ev Hev el Hel. rewrite toggleTreeview_exec by done.
    by rewrite Hel. }
  assert (∀ w ev1 ev2 o, is_Some (events w !! ev2) →
            is_Some (events (with_prevented ev1
              (update_classList (λ l, (TokenList.toggle "menu-open" l).2) o w).2)
              !! ev2)) as Hlive.
  { intros w ev1 ev2 o Hev2. apply events_with_prevented_valid.
    by rewrite (proj2 (proj2 (update_classList_fixed _ _ _))). }
  split; [|split; [|split]].
  - intros w n c. destruct (Hsame w) as (Hi & Hb & Hm).
    rewrite (proj1 (Hside (exec toggleSidebar w))), Hi, Hb, Hm.
    rewrite (proj1 (Hside w)). apply toggle_update_twice.
  - intros w [a Ha]. destruct (Hsame w) as (Hi & Hb & Hm).
    unfold completes.
    rewrite (proj2 (Hside (exec toggleSidebar w))), Hi, Hb, Hm.
    rewrite (proj1 (Hside w)). rewrite (proj2 (Hside w)) in Ha.
    by apply update_classList_again with a.
  - intros w element ev1 ev2 n c Hev1 Hev2.
    destruct (elements w !! element) as [el|] eqn:Hel.
    + unfold exec at 2. rewrite (Htree _ _ _ Hev1 _ Hel). cbn [snd].
      destruct (update_classList_parent
                  (λ l, (TokenList.toggle "menu-open" l).2)
                  (parentElement el) w element el Hel) as (el' & Hel' & Hpar).
      unfold exec.
      rewrite (Htree _ element ev2 (Hlive w ev1 ev2 (parentElement el) Hev2) el' Hel').
      cbn [snd]. rewrite hasClass_with_prevented, Hpar.
      rewrite update_classList_with_prevented. cbn [snd].
      rewrite hasClass_with_prevented. apply toggle_update_twice.
    + unfold exec. rewrite (toggleTreeview_exec element ev1 w Hev1), Hel.
      cbn [snd].
      rewrite (toggleTreeview_exec element ev2 _
                 (events_with_prevented_valid ev1 ev2 w Hev2)).
      change (elements (with_prevented ev1 w)) with (elements w).
      by rewrite Hel.
  - intros w element ev1 ev2 Hev2 [a Ha].
    assert (is_Some (events w !! ev1)) as Hev1.
    { rewrite toggleTreeview_run in Ha. unfold toggleTreeview_outcome in Ha.
      by destruct (events w !! ev1). }
    destruct (elements w !! element) as [el|] eqn:Hel; cycle 1.
    { by rewrite (toggleTreeview_exec element ev1 w Hev1), Hel in Ha. }
    rewrite (Htree _ _ _ Hev1 _ Hel) in Ha. cbn [fst] in Ha.
    unfold exec, completes. rewrite (Htree _ _ _ Hev1 _ Hel). cbn [snd].
    destruct (update_classList_parent
                (λ l, (TokenList.toggle "menu-open" l).2)
                (parentElement el) w element el Hel) as (el' & Hel' & Hpar).
    rewrite (Htree _ element ev2 (Hlive w ev1 ev2 (parentElement el) Hev2) el' Hel').
    cbn [fst]. rewrite Hpar, update_classList_with_prevented. cbn [fst].
    by apply update_classList_again with a.
Qed.

Lemma double_toggle_restores_flags_witness :
  completes toggleSidebar (exec toggleSidebar (page 1200 [] []))
  ∧ hasClass (exec toggleSidebar (exec toggleSidebar (page 1200 [] [])))
      1 "sidebar-collapse" = false
  ∧ completes (toggleTreeview 6 1) (exec (toggleTreeview 6 1) (page 500 [] []))
  ∧ hasClass (exec (toggleTreeview 6 1) (exec (toggleTreeview 6 1) (page 500 [] [])))
      5 "menu-open" = false.
Proof.
  destruct double_toggle_restores_flags as (Hflags & Hdone & Htflags & Htdone).
  split; [|split; [|split]].
  - apply Hdone. eexists. reflexivity.
  - rewrite Hflags. reflexivity.
  - apply Htdone; eexists; reflexivity.
  - rewrite Htflags by (eexists; reflexivity). reflexivity.
Defined.

(** C9. Without any element of id [main-sidebar], [toggleSidebar()] on
    a window wider than 991 still completes and flips [sidebar-collapse]
    on the body: the missing sidebar is only read from on a narrow
    window. *)
Theorem toggleSidebar_desktop_without_sidebar (w : world) (b : node) :
  main_sidebar w = None → 991 < innerWidth w →
  body w = Some b → is_Some (elements w !! b) →
  completes toggleSidebar w
  ∧ hasClass (exec toggleSidebar w) b "sidebar-collapse"
    = negb (hasClass w b "sidebar-collapse").
Proof.
  intros _ Hw Hb [e He]. apply Z.ltb_lt in Hw.
  unfold exec, completes. rewrite toggleSidebar_run, Hw, Hb.
  split; [rewrite (update_classList_Some _ _ _ _ He); eauto|].
  by apply toggle_update_flips with e.
Qed.

Lemma toggleSidebar_desktop_without_sidebar_witness :
  main_sidebar (bare_page 1200) = None
  ∧ completes toggleSidebar (bare_page 1200)
  ∧ hasClass (exec toggleSidebar (bare_page 1200)) 1 "sidebar-collapse" = true.
Proof.
  pose proof (toggleSidebar_desktop_without_sidebar (bare_page 1200) 1
                eq_refl ltac:(simpl; lia) eq_refl ltac:(eexists; reflexivity))
    as (Hdone & Hflip).
  split; [reflexivity|]. split; [exact Hdone|]. rewrite Hflip. reflexivity.
Defined.

(** C10. Neither [handleResize()] nor the click listener ever adds
    [sidebar-open]: after either of them, whatever the document and the
    width, every class list is as before, except that the sidebar may
    have lost [sidebar-open]; no [sidebar-collapse] flag and no
    [menu-open] flag changes. *)
Theorem resize_and_click_only_remove_open (w : world) (h : JS unit) :
  (h = handleResize ∨ ∃ ev, h = documentClick ev) →
  (∀ n, classes (exec h w) n = classes w n
        ∨ (main_sidebar w = Some n
           ∧ classes (exec h w) n
             = TokenList.remove "sidebar-open" <$> classes w n))
  ∧ (∀ n c, hasClass (exec h w) n c = true → hasClass w n c = true)
  ∧ (∀ n c, c ≠ "sidebar-open" → hasClass (exec h w) n c = hasClass w n c)
  ∧ (∀ n, hasClass (exec h w) n "sidebar-collapse"
          = hasClass w n "sidebar-collapse")
  ∧ (∀ n, hasClass (exec h w) n "menu-open" = hasClass w n "menu-open").
Proof.
  intros Hh.
  assert (exec h w = w
          ∨ exec h w
            = (update_classList (TokenList.remove "sidebar-open")
                 (main_sidebar w) w).2) as [->| ->].
  { destruct Hh as [->|[ev ->]];
      [apply handleResize_exec | apply documentClick_exec]. }
  { repeat split; eauto. }
  split; [|split; [|split; [|split]]].
  - intros n. apply remove_update_classes.
  - intros n c. apply remove_update_le.
  - intros n c Hc. by apply remove_update_other.
  - intros n. by apply remove_update_other.
  - intros n. by apply remove_update_other.
Qed.

Lemma resize_and_click_only_remove_open_witness :
  hasClass (exec handleResize (page 1200 ["sidebar-collapse"] ["sidebar-open"]))
    1 "sidebar-collapse" = true
  ∧ hasClass (exec (documentClick 0) (page 500 ["sidebar-collapse"] ["sidebar-open"]))
      1 "sidebar-collapse" = true
  ∧ hasClass (exec (documentClick 0) (page 500 ["sidebar-collapse"] ["sidebar-open"]))
      4 "sidebar-open" = false.
Proof.
  split; [|split].
  - rewrite (proj1 (proj2 (proj2 (proj2
      (resize_and_click_only_remove_open
         (page 1200 ["sidebar-collapse"] ["sidebar-open"]) handleResize
         (or_introl eq_refl)))))).
    reflexivity.
  - rewrite (proj1 (proj2 (proj2 (proj2
      (resize_and_click_only_remove_open
         (page 500 ["sidebar-collapse"] ["sidebar-open"]) (documentClick 0)
         (or_intror (ex_intro _ 0%nat eq_refl))))))).
    reflexivity.
  - reflexivity.
Defined.


(** ** Facts about what stays in place *)

Section TreeFacts.
Implicit Types (w : world) (n m : node) (c : string) (o : option node).

Lemma same_tree_refl w : same_tree w w.
Proof. by repeat split. Qed.

Lemma same_tree_trans w1 w2 w3 :
  same_tree w1 w2 → same_tree w2 w3 → same_tree w1 w3.
Proof.
  intros (Hi & Hb & Hn) (Hi' & Hb' & Hn'). split; [congruence|].
  split; [congruence|]. intros n.
  destruct (Hn' n) as [-> ->], (Hn n) as [-> ->]. done.
Qed.

Lemma same_tree_with_classList n l w : same_tree w (with_classList n l w).
Proof.
  split; [done|]. split; [done|]. intros m. simpl.
  destruct (decide (m = n)) as [->|Hm].
  - rewrite list_lookup_alter_eq. by destruct (elements w !! n).
  - by rewrite list_lookup_alter_ne.
Qed.

Lemma same_tree_with_prevented ev w : same_tree w (with_prevented ev w).
Proof. by repeat split. Qed.

Lemma same_tree_resize x w w' :
  same_tree w w' → same_tree (resize x w) (resize x w').
Proof. intros (Hi & Hb & Hn). split; [done|]. split; [exact Hb | exact Hn]. Qed.

Lemma same_tree_update f o w : same_tree w (update_classList f o w).2.
Proof.
  destruct (update_classList_cases f o w) as [->|(n & e & -> & He & ->)].
  - apply same_tree_refl.
  - apply same_tree_with_classList.
Qed.

Lemma same_tree_lookup w w' n :
  same_tree w w' → is_Some (elements w' !! n) ↔ is_Some (elements w !! n).
Proof.
  intros (_ & _ & Hn). destruct (Hn n) as [Hid _].
  destruct (elements w' !! n), (elements w !! n); simpl in Hid;
    split; intros [? ?]; eauto; congruence.
Qed.

Lemma same_tree_length w w' :
  same_tree w w' → length (elements w') = length (elements w).
Proof.
  intros Ht.
  destruct (decide (length (elements w') = length (elements w))) as [|Hne];
    [done|exfalso].
  destruct (decide (length (elements w') < length (elements w))%nat) as [Hlt|Hge].
  - apply lookup_lt_is_Some in Hlt. apply (same_tree_lookup _ _ _ Ht) in Hlt.
    apply lookup_lt_is_Some in Hlt. lia.
  - assert (length (elements w) < length (elements w'))%nat as Hlt by lia.
    apply lookup_lt_is_Some in Hlt. apply (same_tree_lookup _ _ _ Ht) in Hlt.
    apply lookup_lt_is_Some in Hlt. lia.
Qed.

(** A lookup in tree order depends only on the outcomes of the test. *)
Lemma first_element_ext (P : Element → bool) (els els' : list Element) :
  (∀ n, P <$> els' !! n = P <$> els !! n) →
  first_element P els' = first_element P els.
Proof.
  revert els'. induction els as [|e els IH]; intros els' H.
  - specialize (H 0%nat). by destruct els'.
  - destruct els' as [|e' els']; [by specialize (H 0%nat)|].
    rewrite !first_element_cons.
    pose proof (H 0%nat) as H0. simpl in H0. injection H0 as H0. rewrite H0.
    rewrite (IH els'); [done|]. intros n. apply (H (S n)).
Qed.

Lemma same_tree_main_sidebar w w' :
  same_tree w w' → main_sidebar w' = main_sidebar w.
Proof.
  intros (_ & _ & Hn). unfold main_sidebar, element_by_id.
  apply first_element_ext. intros n. destruct (Hn n) as [Hid _].
  destruct (elements w' !! n), (elements w !! n); simpl in *; try done.
  injection Hid as Hid. by rewrite Hid.
Qed.

Lemma sidebar_toggle_stable w w' :
  same_tree w w' →
  (∀ n, hasClass w' n "sidebar-toggle" = hasClass w n "sidebar-toggle") →
  sidebar_toggle w' = sidebar_toggle w.
Proof.
  intros Ht Hc. unfold sidebar_toggle. apply first_element_ext. intros n.
  pose proof (same_tree_lookup _ _ n Ht) as Hl. specialize (Hc n).
  unfold hasClass in Hc.
  destruct (elements w' !! n), (elements w !! n); simpl in *;
    try congruence.
  - destruct Hl as [Hl _]. destruct Hl as [? ?]; [eauto|done].
  - destruct Hl as [_ Hl]. destruct Hl as [? ?]; [eauto|done].
Qed.

Lemma inclusive_descendant_ext (els els' : list Element) fuel a m :
  (∀ n, parentElement <$> els' !! n = parentElement <$> els !! n) →
  inclusive_descendant els' fuel a m = inclusive_descendant els fuel a m.
Proof.
  intros H. revert m. induction fuel as [|fuel IH]; intros m; simpl; [done|].
  case_bool_decide; [done|]. specialize (H m).
  destruct (els' !! m) as [e'|], (els !! m) as [e|]; simpl in H; try done.
  injection H as H. rewrite H. destruct (parentElement e); [apply IH | done].
Qed.

Lemma same_tree_contains_in w w' n t :
  same_tree w w' →
  contains_in (elements w') n t = contains_in (elements w) n t.
Proof.
  intros Ht. destruct t as [|m]; [done|]. simpl.
  rewrite (same_tree_length _ _ Ht).
  apply inclusive_descendant_ext. intros k. by destruct Ht as (_ & _ & Hn), (Hn k).
Qed.


End TreeFacts.

(** ** When the handlers throw *)

Section FaultFacts.
Implicit Types (w : world) (n m : node) (c : string) (o : option node).
Variable f : list string → list string.

Lemma update_classList_completes o w :
  (∃ a, (update_classList f o w).1 = Normal a)
  ↔ ∃ n, o = Some n ∧ is_Some (elements w !! n).
Proof.
  unfold update_classList. destruct o as [n|].
  - destruct (elements w !! n) as [e|] eqn:He; simpl; split.
    + eauto.
    + eauto.
    + intros [a Ha]. done.
    + intros (m & [= <-] & [e He']). congruence.
  - split; [intros [a Ha]; done | intros (m & Hm & _); done].
Qed.

Lemma update_classList_throws o w :
  ¬ (∃ a, (update_classList f o w).1 = Normal a) →
  update_classList f o w = (Throw TypeError, w).
Proof.
  unfold update_classList. destruct o as [n|]; [|done].
  destruct (elements w !! n); [|done]. intros H. destruct H. simpl. eauto.
Qed.

End FaultFacts.

(** ** Further properties of the handlers *)

(** X1. [toggleSidebar()] completes exactly when the element it writes
    to exists: the body on a window wider than 991, the sidebar
    otherwise.  When it does not complete it throws a [TypeError] and
    has written nothing. *)
Theorem toggleSidebar_completes_iff (w : world) :
  (completes toggleSidebar w ↔
     (991 < innerWidth w ∧ ∃ b, body w = Some b ∧ is_Some (elements w !! b))
     ∨ (innerWidth w ≤ 991 ∧ is_Some (main_sidebar w)))
  ∧ (¬ completes toggleSidebar w → toggleSidebar w = (Throw TypeError, w)).
Proof.
  unfold completes. rewrite toggleSidebar_run.
  destruct (Z.ltb_spec 991 (innerWidth w)) as [Hw|Hw].
  - split; [|apply update_classList_throws].
    rewrite update_classList_completes. split.
    + intros H. left. eauto.
    + intros [[_ H]|[Hle _]]; [done | lia].
  - split; [|apply update_classList_throws].
    rewrite update_classList_completes. split.
    + intros (s & Hs & _). right. split; [done|]. rewrite Hs. eauto.
    + intros [[Hlt _]|[_ [s Hs]]]; [lia|].
      exists s. split; [done|]. by apply main_sidebar_valid.
Qed.

Lemma toggleSidebar_completes_iff_witness :
  ¬ completes toggleSidebar (bare_page 500)
  ∧ toggleSidebar (bare_page 500) = (Throw TypeError, bare_page 500)
  ∧ completes toggleSidebar (bare_page 1200).
Proof.
  assert (¬ completes toggleSidebar (bare_page 500)) as Hno.
  { intros [a Ha]. discriminate Ha. }
  split; [exact Hno|]. split.
  - apply (proj2 (toggleSidebar_completes_iff (bare_page 500)) Hno).
  - apply (proj1 (toggleSidebar_completes_iff (bare_page 1200))).
    left. split; [simpl; lia|]. exists 1%nat. split; [reflexivity|].
    eexists. reflexivity.
Defined.

(** X2. [handleResize()] completes exactly when the window is at most
    991 wide or the sidebar exists.  When it does not complete it throws
    a [TypeError] and has written nothing. *)
Theorem handleResize_completes_iff (w : world) :
  (completes handleResize w ↔ innerWidth w ≤ 991 ∨ is_Some (main_sidebar w))
  ∧ (¬ completes handleResize w → handleResize w = (Throw TypeError, w)).
Proof.
  unfold completes. rewrite handleResize_run.
  destruct (Z.ltb_spec 991 (innerWidth w)) as [Hw|Hw].
  - split; [|apply update_classList_throws].
    rewrite update_classList_completes. split.
    + intros (s & Hs & _). right. rewrite Hs. eauto.
    + intros [Hle|[s Hs]]; [lia|].
      exists s. split; [done|]. by apply main_sidebar_valid.
  - split; [|intros H; destruct H; simpl; eauto].
    split; [by left | simpl; eauto].
Qed.

Lemma handleResize_completes_iff_witness :
  ¬ completes handleResize (bare_page 1200)
  ∧ handleResize (bare_page 1200) = (Throw TypeError, bare_page 1200)
  ∧ completes handleResize (bare_page 500).
Proof.
  assert (¬ completes handleResize (bare_page 1200)) as Hno.
  { intros [a Ha]. discriminate Ha. }
  split; [exact Hno|]. split.
  - apply (proj2 (handleResize_completes_iff (bare_page 1200)) Hno).
  - apply (proj1 (handleResize_completes_iff (bare_page 500))).
    left. simpl. lia.
Defined.

(** X3. The click listener throws exactly when the window is at most
    991 wide and a read fails after the width test: there is no sidebar;
    or the sidebar is open and the event object is missing; or the
    sidebar is open, the target lies outside it and there is no toggle
    button.  When it throws it has written nothing. *)
Theorem documentClick_throws_iff (w : world) (ev : event) :
  (¬ completes (documentClick ev) w ↔
     innerWidth w ≤ 991
     ∧ (main_sidebar w = None
        ∨ ∃ s, main_sidebar w = Some s
               ∧ hasClass w s "sidebar-open" = true
               ∧ (events w !! ev = None
                  ∨ ∃ e, events w !! ev = Some e
                         ∧ contains_in (elements w) s (target e) = false
                         ∧ sidebar_toggle w = None)))
  ∧ (¬ completes (documentClick ev) w →
     documentClick ev w = (Throw TypeError, w)).
Proof.
  unfold completes. rewrite documentClick_run. unfold documentClick_outcome.
  assert (∀ x : world, ¬ (∃ a, (Throw TypeError, x).1 = @Normal unit a)) as Hthrow.
  { intros x [a Ha]. done. }
  assert (∀ x : world, ∃ a, (Normal tt, x).1 = Normal a) as Hnormal.
  { intros x. simpl. eauto. }
  destruct (Z.ltb_spec 991 (innerWidth w)) as [Hw|Hw].
  { split; [|intros H; destruct H; simpl; eauto].
    split; [intros H; destruct H; simpl; eauto | intros [Hle _]; lia]. }
  destruct (main_sidebar w) as [s|] eqn:Hs; cycle 1.
  { split; [|done]. split; [eauto | intros _; apply Hthrow]. }
  destruct (hasClass w s "sidebar-open") eqn:Hopen; simpl; cycle 1.
  { split; [|intros H; destruct H; simpl; eauto].
    split; [intros H; destruct H; simpl; eauto|].
    intros (_ & [?|(s' & [= <-] & Ho & _)]); congruence. }
  destruct (events w !! ev) as [e|] eqn:He; cycle 1.
  { split; [|done]. split; [|intros _; apply Hthrow].
    intros _. split; [done|]. right. exists s. eauto. }
  destruct (contains_in (elements w) s (target e)) eqn:Hin.
  { split; [|intros H; destruct H; simpl; eauto].
    split; [intros H; destruct H; simpl; eauto|].
    intros (_ & [?|(s' & [= <-] & _ & [?|(e' & [= <-] & Hc & _)])]);
      congruence. }
  destruct (sidebar_toggle w) as [t|] eqn:Ht; cycle 1.
  { split; [|done]. split; [|intros _; apply Hthrow].
    intros _. split; [done|]. right. exists s. split; [done|].
    split; [done|]. right. exists e. eauto. }
  destruct (main_sidebar_valid _ _ Hs) as [se Hse].
  assert (∃ a, (if contains_in (elements w) t (target e)
                then (Normal tt, w)
                else update_classList (TokenList.remove "sidebar-open") (Some s) w).1
               = Normal a) as Hdone.
  { destruct (contains_in (elements w) t (target e)); [eauto|].
    rewrite (update_classList_Some _ _ _ _ Hse). eauto. }
  split; [|intros H; destruct H; simpl; eauto].
  split; [intros H; destruct H; simpl; eauto|].
  intros (_ & [?|(s' & [= <-] & _ & [?|(e' & [= <-] & _ & ?)])]);
    congruence.
Qed.

Lemma documentClick_throws_iff_witness :
  ¬ completes (documentClick 0) (bare_page 500)
  ∧ documentClick 0 (bare_page 500) = (Throw TypeError, bare_page 500).
Proof.
  assert (¬ completes (documentClick 0) (bare_page 500)) as Hno.
  { apply (proj1 (documentClick_throws_iff (bare_page 500) 0)).
    split; [simpl; lia|]. left. reflexivity. }
  split; [exact Hno|].
  apply (proj2 (documentClick_throws_iff (bare_page 500) 0) Hno).
Defined.

(** X4. [toggleTreeview(element, event)] completes exactly when the
    event object, the element and a parent of the element exist.  Without
    an event object it throws having written nothing; otherwise the event
    is marked by [preventDefault()] even when the call then throws for a
    missing element or parent, and a call that throws changes no
    element. *)
Theorem toggleTreeview_completes_iff (w : world) (element : node) (ev : event) :
  (completes (toggleTreeview element ev) w ↔
     is_Some (events w !! ev)
     ∧ ∃ el p, elements w !! element = Some el ∧ parentElement el = Some p
               ∧ is_Some (elements w !! p))
  ∧ (events w !! ev = None →
     toggleTreeview element ev w = (Throw TypeError, w))
  ∧ (is_Some (events w !! ev) →
     events (exec (toggleTreeview element ev) w) !! ev
     = prevent <$> events w !! ev)
  ∧ (¬ completes (toggleTreeview element ev) w →
     (toggleTreeview element ev w).1 = Throw TypeError
     ∧ elements (exec (toggleTreeview element ev) w) = elements w).
Proof.
  unfold completes, exec. rewrite toggleTreeview_run.
  unfold toggleTreeview_outcome.
  destruct (events w !! ev) as [e|] eqn:He; cycle 1.
  { split; [|split; [done|split]].
    - split; [intros [a Ha]; done | intros [[? ?] _]; done].
    - intros [? ?]; done.
    - done. }
  destruct (elements w !! element) as [el|] eqn:Hel; cycle 1.
  { split; [|split; [done|split]].
    - split; [intros [a Ha]; done | intros (_ & el & p & ? & _); done].
    - intros _. simpl. by rewrite list_lookup_alter_eq, He.
    - done. }
  rewrite update_classList_with_prevented. cbn [fst snd].
  split; [|split; [done|split]].
  - rewrite update_classList_completes. split.
    + intros (p & Hp & Hvalid). split; [eauto|]. exists el, p. eauto.
    + intros (_ & el' & p & [= <-] & Hp & Hvalid). eauto.
  - intros _. unfold with_prevented. cbn [events].
    rewrite (proj2 (proj2 (update_classList_fixed _ _ _))).
    by rewrite list_lookup_alter_eq, He.
  - intros Hno. rewrite (update_classList_throws _ _ _ Hno). done.
Qed.

Lemma toggleTreeview_completes_iff_witness :
  completes (toggleTreeview 6 1) (page 500 [] [])
  ∧ toggleTreeview 6 9 (page 500 [] []) = (Throw TypeError, page 500 [] [])
  ∧ defaultPrevented <$> events (exec (toggleTreeview 0 1) (page 500 [] [])) !! 1%nat
    = Some true
  ∧ elements (exec (toggleTreeview 0 1) (page 500 [] []))
    = elements (page 500 [] []).
Proof.
  split; [|split; [|split]].
  - apply (proj1 (toggleTreeview_completes_iff (page 500 [] []) 6 1)).
    split; [eexists; reflexivity|].
    exists (mkElement "" ["nav-link"] (Some 5%nat)), 5%nat.
    split; [reflexivity|]. split; [reflexivity|]. eexists. reflexivity.
  - apply (proj1 (proj2 (toggleTreeview_completes_iff (page 500 [] []) 6 9))).
    reflexivity.
  - rewrite (proj1 (proj2 (proj2
               (toggleTreeview_completes_iff (page 500 [] []) 0 1)))
               ltac:(eexists; reflexivity)).
    reflexivity.
  - apply (proj2 (proj2 (proj2
             (toggleTreeview_completes_iff (page 500 [] []) 0 1)))).
    intros [a Ha]. discriminate Ha.
Defined.

Section ShapeFacts.
Implicit Types (w : world) (n m : node) (c : string) (o : option node).

Lemma remove_idem c (l : list string) :
  TokenList.remove c (TokenList.remove c l) = TokenList.remove c l.
Proof.
  unfold TokenList.remove. rewrite list_filter_filter.
  apply list_filter_iff. tauto.
Qed.

Lemma remove_update_twice o w c :
  (update_classList (TokenList.remove c) o
     (update_classList (TokenList.remove c) o w).2).2
  = (update_classList (TokenList.remove c) o w).2.
Proof.
  destruct (update_classList_cases (TokenList.remove c) o w)
    as [Hid|(n & e & -> & He & Hrun)].
  - by rewrite !Hid.
  - rewrite Hrun. cbn [snd].
    pose proof (lookup_with_classList_same n (TokenList.remove c (classList e))
                  w e He) as He'.
    rewrite (update_classList_Some _ _ _ _ He'). cbn [snd classList].
    rewrite remove_idem.
    exact (with_classList_id n _ _ He').
Qed.

(** The world a handler leaves behind: the world as it was or with one
    of the three flags toggled on or removed from one element, and for
    [toggleTreeview] the event marked on top. *)
Lemma handler_exec_cases w (h : JS unit) :
  h = toggleSidebar ∨ h = handleResize ∨ (∃ ev, h = documentClick ev)
  ∨ (∃ element ev, h = toggleTreeview element ev) →
  ∃ g : world → world,
    (g = (λ x, x) ∨ ∃ ev, g = with_prevented ev)
    ∧ (exec h w = g w
       ∨ ∃ c o, (c = "sidebar-collapse" ∨ c = "sidebar-open" ∨ c = "menu-open")
                ∧ (exec h w
                   = g (update_classList (λ l, (TokenList.toggle c l).2) o w).2
                   ∨ exec h w
                     = g (update_classList (TokenList.remove c) o w).2)).
Proof.
  intros [->|[->|[[ev ->]|(element & ev & ->)]]].
  - exists (λ x, x). split; [by left|]. right.
    unfold exec. rewrite toggleSidebar_run.
    destruct (991 <? innerWidth w).
    + exists "sidebar-collapse", (body w). split; [by left | by left].
    + exists "sidebar-open", (main_sidebar w). split; [by right; left | by left].
  - exists (λ x, x). split; [by left|].
    destruct (handleResize_exec w) as [-> | ->]; [by left|]. right.
    exists "sidebar-open", (main_sidebar w). split; [by right; left | by right].
  - exists (λ x, x). split; [by left|].
    destruct (documentClick_exec ev w) as [-> | ->]; [by left|]. right.
    exists "sidebar-open", (main_sidebar w). split; [by right; left | by right].
  - destruct (events w !! ev) as [e|] eqn:He; cycle 1.
    { exists (λ x, x). split; [by left|]. left.
      unfold exec. rewrite toggleTreeview_run. unfold toggleTreeview_outcome.
      by rewrite He. }
    exists (with_prevented ev). split; [right; eauto|].
    unfold exec. rewrite toggleTreeview_exec by eauto.
    destruct (elements w !! element) as [el|]; [|by left]. right.
    exists "menu-open", (parentElement el). split; [by right; right | by left].
Qed.

(** After one run of the click listener a second run for the same
    click writes nothing. *)
Lemma click_listener_twice w ev :
  exec (documentClick ev) (exec (documentClick ev) w)
  = exec (documentClick ev) w.
Proof.
  destruct (documentClick_exec ev w) as [Hid|Hrm].
  - by rewrite !Hid.
  - destruct (documentClick_exec ev (exec (documentClick ev) w)) as [Hid'|Hrm'];
      [done|].
    rewrite Hrm'. rewrite Hrm at 1 2 3.
    rewrite update_classList_main_sidebar. apply remove_update_twice.
Qed.

Lemma toggle_NoDup c (l : list string) :
  NoDup l → NoDup (TokenList.toggle c l).2.
Proof.
  intros Hl. unfold TokenList.toggle.
  destruct (TokenList.contains c l) eqn:Hc; simpl.
  - by apply NoDup_filter.
  - apply contains_false in Hc. apply NoDup_app. split; [done|]. split.
    + intros x Hx Hx'. apply list_elem_of_singleton in Hx'. by subst.
    + apply NoDup_singleton.
Qed.

Lemma token_sets_update f o w :
  (∀ l, NoDup l → NoDup (f l)) →
  token_sets w → token_sets (update_classList f o w).2.
Proof.
  intros Hf Hw. destruct (update_classList_cases f o w)
    as [->|(n & e & -> & He & ->)]; [done|].
  intros m em. simpl. destruct (decide (m = n)) as [->|Hm].
  - rewrite list_lookup_alter_eq, He. simpl. intros [= <-]. simpl.
    apply Hf. by apply (Hw n).
  - rewrite list_lookup_alter_ne by done. apply Hw.
Qed.

(** A handler keeps the tree and every class that is not one of the
    three flags. *)
Lemma handler_stable w (h : JS unit) :
  h = toggleSidebar ∨ h = handleResize ∨ (∃ ev, h = documentClick ev)
  ∨ (∃ element ev, h = toggleTreeview element ev) →
  same_tree w (exec h w)
  ∧ ∀ n c, c ≠ "sidebar-collapse" → c ≠ "sidebar-open" → c ≠ "menu-open" →
           hasClass (exec h w) n c = hasClass w n c.
Proof.
  intros Hh.
  destruct (handler_exec_cases w h Hh)
    as (g & Hg & [->|(c & o & Hc & [->| ->])]).
  - destruct Hg as [->|[ev ->]];
      (split; [first [apply same_tree_refl | apply same_tree_with_prevented]
              | done]).
  - split.
    + destruct Hg as [->|[ev ->]]; [apply same_tree_update|].
      eapply same_tree_trans;
        [apply same_tree_update | apply same_tree_with_prevented].
    + intros n c' H1 H2 H3.
      assert (c' ≠ c) as Hne by (destruct Hc as [->|[->| ->]]; done).
      destruct Hg as [->|[ev ->]]; [|rewrite hasClass_with_prevented];
        by apply toggle_update_other.
  - split.
    + destruct Hg as [->|[ev ->]]; [apply same_tree_update|].
      eapply same_tree_trans;
        [apply same_tree_update | apply same_tree_with_prevented].
    + intros n c' H1 H2 H3.
      assert (c' ≠ c) as Hne by (destruct Hc as [->|[->| ->]]; done).
      destruct Hg as [->|[ev ->]]; [|rewrite hasClass_with_prevented];
        by apply remove_update_other.
Qed.

Lemma handler_sidebar_toggle w (h : JS unit) :
  h = toggleSidebar ∨ h = handleResize ∨ (∃ ev, h = documentClick ev)
  ∨ (∃ element ev, h = toggleTreeview element ev) →
  sidebar_toggle (exec h w) = sidebar_toggle w.
Proof.
  intros Hh. destruct (handler_stable w h Hh) as [Htree Hother].
  apply sidebar_toggle_stable; [done|]. intros n. by apply Hother.
Qed.

End ShapeFacts.

(** X5. [handleResize()] is idempotent: a second call in a row leaves
    the world exactly as the first call left it. *)
Theorem handleResize_idempotent (w : world) :
  exec handleResize (exec handleResize w) = exec handleResize w.
Proof.
  destruct (handleResize_exec w) as [Hid|Hrm].
  - by rewrite !Hid.
  - destruct (handleResize_exec (exec handleResize w)) as [Hid'|Hrm'];
      [done|].
    rewrite Hrm'. rewrite Hrm at 1 2 3.
    rewrite update_classList_main_sidebar. apply remove_update_twice.
Qed.

(** X6. The click listener is idempotent: run twice in a row for the
    same click, the second run leaves the world exactly as the first run
    left it, and it completes if the first run did. *)
Theorem documentClick_idempotent (w : world) (ev : event) :
  exec (documentClick ev) (exec (documentClick ev) w)
  = exec (documentClick ev) w
  ∧ (completes (documentClick ev) w →
     completes (documentClick ev) (exec (documentClick ev) w)).
Proof.
  split; [apply click_listener_twice|].
  intros Hdone. destruct (documentClick_exec ev w) as [Hid|Hrm].
  { by rewrite Hid. }
  destruct (main_sidebar w) as [s|] eqn:Hs; cycle 1.
  { by rewrite Hrm. }
  rewrite Hrm. unfold completes. rewrite documentClick_run.
  unfold documentClick_outcome.
  rewrite update_classList_main_sidebar, Hs.
  rewrite (remove_update_gone s w "sidebar-open") by (by apply main_sidebar_valid).
  destruct (991 <? innerWidth _); simpl; eauto.
Qed.

Lemma documentClick_idempotent_witness :
  completes (documentClick 0) (page 500 [] ["sidebar-open"])
  ∧ completes (documentClick 0)
      (exec (documentClick 0) (page 500 [] ["sidebar-open"]))
  ∧ classes (exec (documentClick 0)
               (exec (documentClick 0) (page 500 [] ["sidebar-open"]))) 4
    = Some [].
Proof.
  assert (completes (documentClick 0) (page 500 [] ["sidebar-open"])) as Hdone.
  { eexists. reflexivity. }
  split; [exact Hdone|]. split.
  - apply (proj2 (documentClick_idempotent (page 500 [] ["sidebar-open"]) 0)
             Hdone).
  - rewrite (proj1 (documentClick_idempotent (page 500 [] ["sidebar-open"]) 0)).
    reflexivity.
Defined.



(** X8. Class lists stay sets: if no class list of the document holds
    a token twice, none does after any of the four handlers. *)
Theorem handlers_keep_token_sets (w : world) (h : JS unit) :
  h = toggleSidebar ∨ h = handleResize ∨ (∃ ev, h = documentClick ev)
  ∨ (∃ element ev, h = toggleTreeview element ev) →
  token_sets w → token_sets (exec h w).
Proof.
  intros Hh Hw.
  assert (∀ ev x, token_sets x → token_sets (with_prevented ev x)) as Hprev.
  { intros ev x Hx. exact Hx. }
  assert (∀ c l, NoDup l → NoDup (TokenList.remove c l)) as Hrm.
  { intros c l Hl. by apply NoDup_filter. }
  destruct (handler_exec_cases w h Hh)
    as (g & Hg & [->|(c & o & Hc & [->| ->])]);
    destruct Hg as [->|[ev ->]]; try apply Hprev; try done;
    apply token_sets_update; try done; intros l;
    first [apply toggle_NoDup | apply Hrm].
Qed.

Lemma handlers_keep_token_sets_witness :
  token_sets (page 500 ["sidebar-mini"] ["main-sidebar"])
  ∧ token_sets (exec toggleSidebar (page 500 ["sidebar-mini"] ["main-sidebar"])).
Proof.
  assert (token_sets (page 500 ["sidebar-mini"] ["main-sidebar"])) as Hw.
  { intros n e Hn.
    do 8 (destruct n as [|n]; [injection Hn as <-; simpl;
                               apply (bool_decide_unpack _); vm_compute; exact I|]).
    discriminate Hn. }
  split; [exact Hw|].
  apply (handlers_keep_token_sets _ toggleSidebar (or_introl eq_refl) Hw).
Defined.

(** ** Handlers one after the other *)

Section CompositionFacts.
Implicit Types (w : world) (n m s t : node) (c : string) (ev : event).

Lemma toggleSidebar_events w : events (exec toggleSidebar w) = events w.
Proof.
  unfold exec. rewrite toggleSidebar_run.
  destruct (991 <? innerWidth w); apply update_classList_fixed.
Qed.

Lemma toggleSidebar_is_handler :
  toggleSidebar = toggleSidebar ∨ toggleSidebar = handleResize
  ∨ (∃ ev, toggleSidebar = documentClick ev)
  ∨ (∃ element ev, toggleSidebar = toggleTreeview element ev).
Proof. by left. Qed.

Lemma toggleTreeview_is_handler element ev :
  toggleTreeview element ev = toggleSidebar
  ∨ toggleTreeview element ev = handleResize
  ∨ (∃ ev', toggleTreeview element ev = documentClick ev')
  ∨ (∃ element' ev', toggleTreeview element ev = toggleTreeview element' ev').
Proof. right. right. right. eauto. Qed.

(** A click inside the toggle button: the listener changes nothing. *)
Lemma documentClick_inside_toggle w ev e t :
  sidebar_toggle w = Some t → events w !! ev = Some e →
  contains_in (elements w) t (target e) = true →
  exec (documentClick ev) w = w
  ∧ (is_Some (main_sidebar w) → completes (documentClick ev) w).
Proof.
  intros Ht He Hin. unfold exec, completes. rewrite documentClick_run.
  unfold documentClick_outcome. rewrite He, Ht, Hin.
  destruct (991 <? innerWidth w); [simpl; eauto|].
  destruct (main_sidebar w) as [s|]; [|split; [done|intros [? ?]; done]].
  destruct (negb (hasClass w s "sidebar-open")); [simpl; eauto|].
  destruct (contains_in (elements w) s (target e)); simpl; eauto.
Qed.

(** A click inside the sidebar: the listener changes nothing. *)
Lemma documentClick_inside_sidebar w ev e s :
  main_sidebar w = Some s → events w !! ev = Some e →
  contains_in (elements w) s (target e) = true →
  documentClick ev w = (Normal tt, w).
Proof.
  intros Hs He Hin. rewrite documentClick_run.
  unfold documentClick_outcome. rewrite Hs, He, Hin.
  destruct (991 <? innerWidth w); [done|].
  by destruct (negb (hasClass w s "sidebar-open")).
Qed.

(** A click outside both on a narrow window: the sidebar ends closed. *)
Lemma documentClick_outside w ev e s t :
  main_sidebar w = Some s → sidebar_toggle w = Some t →
  events w !! ev = Some e → innerWidth w ≤ 991 →
  contains_in (elements w) s (target e) = false →
  contains_in (elements w) t (target e) = false →
  completes (documentClick ev) w
  ∧ hasClass (exec (documentClick ev) w) s "sidebar-open" = false.
Proof.
  intros Hs Ht He Hw Hin Hint. apply Z.ltb_ge in Hw.
  destruct (main_sidebar_valid _ _ Hs) as [se Hse].
  unfold exec, completes. rewrite documentClick_run.
  unfold documentClick_outcome. rewrite Hw, Hs, He, Hin, Ht, Hint.
  destruct (hasClass w s "sidebar-open") eqn:Hopen; simpl.
  - split; [rewrite Hse; eauto|].
    apply (remove_update_gone s w "sidebar-open"). eauto.
  - eauto.
Qed.

Lemma update_classList_resize f o x w :
  update_classList f o (resize x w)
  = ((update_classList f o w).1, resize x (update_classList f o w).2).
Proof.
  unfold update_classList. destruct o as [n|]; [|done].
  change (elements (resize x w)) with (elements w).
  by destruct (elements w !! n).
Qed.

End CompositionFacts.

(** X9. A click on the toggle button: when [toggleSidebar()] has run
    and the click then reaches the document listener with a target inside
    the [.sidebar-toggle] element, the listener changes nothing, so what
    [toggleSidebar()] did stays; with a sidebar in the document the
    listener also completes. *)
Theorem toggle_click_survives_listener
    (w : world) (ev : event) (e : Event) (t : node) :
  sidebar_toggle w = Some t → events w !! ev = Some e →
  contains_in (elements w) t (target e) = true →
  exec (documentClick ev) (exec toggleSidebar w) = exec toggleSidebar w
  ∧ (is_Some (main_sidebar w) →
     completes (documentClick ev) (exec toggleSidebar w)).
Proof.
  intros Ht He Hin.
  destruct (handler_stable w toggleSidebar toggleSidebar_is_handler)
    as [Htree _].
  pose proof (documentClick_inside_toggle (exec toggleSidebar w) ev e t) as H.
  rewrite (handler_sidebar_toggle w _ toggleSidebar_is_handler) in H.
  rewrite toggleSidebar_events, (same_tree_contains_in _ _ _ _ Htree) in H.
  rewrite (same_tree_main_sidebar _ _ Htree) in H.
  by apply H.
Qed.

Lemma toggle_click_survives_listener_witness :
  sidebar_toggle (page 500 [] []) = Some 3%nat
  ∧ contains_in (elements (page 500 [] [])) 3 (TargetElement 3) = true
  ∧ hasClass (exec (documentClick 2) (exec toggleSidebar (page 500 [] [])))
      4 "sidebar-open" = true.
Proof.
  split; [reflexivity|]. split; [reflexivity|].
  rewrite (proj1 (toggle_click_survives_listener (page 500 [] []) 2 _ 3
                    eq_refl eq_refl eq_refl)).
  reflexivity.
Defined.

(** X10. A control outside the [.sidebar-toggle] element cannot open
    the sidebar on a window of width at most 991: when [toggleSidebar()]
    has run and the click then reaches the document listener with a
    target outside the sidebar and outside the toggle button, both
    complete and the sidebar ends without [sidebar-open], whether it had
    it before or not. *)
Theorem outside_control_cannot_open
    (w : world) (ev : event) (e : Event) (s t : node) :
  main_sidebar w = Some s → sidebar_toggle w = Some t →
  events w !! ev = Some e → innerWidth w ≤ 991 →
  contains_in (elements w) s (target e) = false →
  contains_in (elements w) t (target e) = false →
  completes toggleSidebar w
  ∧ completes (documentClick ev) (exec toggleSidebar w)
  ∧ hasClass (exec (documentClick ev) (exec toggleSidebar w)) s "sidebar-open"
    = false.
Proof.
  intros Hs Ht He Hw Hin Hint.
  destruct (handler_stable w toggleSidebar toggleSidebar_is_handler)
    as [Htree _].
  split.
  { unfold completes. rewrite toggleSidebar_run.
    apply Z.ltb_ge in Hw. rewrite Hw, Hs.
    destruct (main_sidebar_valid _ _ Hs) as [se Hse].
    rewrite (update_classList_Some _ _ _ _ Hse). eauto. }
  apply (documentClick_outside (exec toggleSidebar w) ev e s t).
  - by rewrite (same_tree_main_sidebar _ _ Htree).
  - by rewrite (handler_sidebar_toggle w _ toggleSidebar_is_handler).
  - by rewrite toggleSidebar_events.
  - by destruct Htree as (-> & _).
  - by rewrite (same_tree_contains_in _ _ _ _ Htree).
  - by rewrite (same_tree_contains_in _ _ _ _ Htree).
Qed.

Lemma outside_control_cannot_open_witness :
  innerWidth (page 500 [] []) ≤ 991
  ∧ contains_in (elements (page 500 [] [])) 4 (TargetElement 7) = false
  ∧ contains_in (elements (page 500 [] [])) 3 (TargetElement 7) = false
  ∧ hasClass (exec toggleSidebar (page 500 [] [])) 4 "sidebar-open" = true
  ∧ hasClass (exec (documentClick 0) (exec toggleSidebar (page 500 [] [])))
      4 "sidebar-open" = false.
Proof.
  split; [simpl; lia|]. split; [reflexivity|]. split; [reflexivity|].
  split; [reflexivity|].
  apply (outside_control_cannot_open (page 500 [] []) 0 _ 4 3
           eq_refl eq_refl eq_refl); [simpl; lia | reflexivity | reflexivity].
Defined.

(** X11. A click on a treeview link inside the sidebar: when
    [toggleTreeview] has run and the same click then reaches the document
    listener, the listener completes and changes nothing, so the sidebar
    stays as it is and the submenu stays toggled. *)
Theorem treeview_click_survives_listener
    (w : world) (element : node) (ev : event) (e : Event) (s : node) :
  main_sidebar w = Some s → events w !! ev = Some e →
  contains_in (elements w) s (target e) = true →
  documentClick ev (exec (toggleTreeview element ev) w)
  = (Normal tt, exec (toggleTreeview element ev) w).
Proof.
  intros Hs He Hin.
  destruct (handler_stable w _ (toggleTreeview_is_handler element ev))
    as [Htree _].
  apply documentClick_inside_sidebar with (prevent e) s.
  - by rewrite (same_tree_main_sidebar _ _ Htree).
  - unfold exec. rewrite toggleTreeview_exec by eauto.
    destruct (elements w !! element) as [el|]; cbn [snd];
      unfold with_prevented; cbn [events];
      rewrite ?(proj2 (proj2 (update_classList_fixed _ _ _)));
      by rewrite list_lookup_alter_eq, He.
  - by rewrite (same_tree_contains_in _ _ _ _ Htree).
Qed.

Lemma treeview_click_survives_listener_witness :
  contains_in (elements (page 500 [] ["sidebar-open"])) 4 (TargetElement 6) = true
  ∧ hasClass (exec (documentClick 1)
                (exec (toggleTreeview 6 1) (page 500 [] ["sidebar-open"])))
      4 "sidebar-open" = true
  ∧ hasClass (exec (documentClick 1)
                (exec (toggleTreeview 6 1) (page 500 [] ["sidebar-open"])))
      5 "menu-open" = true.
Proof.
  split; [reflexivity|].
  unfold exec at 1 3.
  rewrite (treeview_click_survives_listener (page 500 [] ["sidebar-open"])
             6 1 _ 4 eq_refl eq_refl eq_refl).
  split; reflexivity.
Defined.

(** X12. [toggleTreeview] does not depend on the window width: at any
    other width it completes or throws in the same way and writes the
    same things. *)
Theorem toggleTreeview_ignores_width
    (w : world) (element : node) (ev : event) (width : Z) :
  toggleTreeview element ev (resize width w)
  = ((toggleTreeview element ev w).1,
     resize width (exec (toggleTreeview element ev) w)).
Proof.
  unfold exec. rewrite !toggleTreeview_run. unfold toggleTreeview_outcome.
  change (events (resize width w)) with (events w).
  change (elements (resize width w)) with (elements w).
  destruct (events w !! ev); [|done].
  destruct (elements w !! element) as [el|]; [|done].
  rewrite !update_classList_with_prevented.
  by rewrite update_classList_resize.
Qed.

(** X14. Resizes one after the other, each followed by
    [handleResize()]: with a sidebar in the document, the sidebar has
    [sidebar-open] at the end exactly when it had it at the start and no
    width on the way exceeded 991; no other flag of any element
    changes. *)
Theorem resizes_clear_open_once_wide (w : world) (s : node) (widths : list Z) :
  main_sidebar w = Some s →
  hasClass (foldl (λ x width, exec handleResize (resize width x)) w widths)
    s "sidebar-open"
  = hasClass w s "sidebar-open" && forallb (λ width, width <=? 991) widths
  ∧ ∀ n c, c ≠ "sidebar-open" →
      hasClass (foldl (λ x width, exec handleResize (resize width x)) w widths)
        n c
      = hasClass w n c.
Proof.
  revert w. induction widths as [|width widths IH]; intros w Hs.
  { simpl. by rewrite andb_true_r. }
  cbn [foldl forallb].
  assert (main_sidebar (exec handleResize (resize width w)) = Some s) as Hs'.
  { rewrite (same_tree_main_sidebar (resize width w)); [done|].
    apply handler_stable. right. by left. }
  destruct (IH _ Hs') as [Hopen Hother]. rewrite Hopen. split.
  - rewrite andb_assoc. f_equal. unfold exec. rewrite handleResize_run.
    change (innerWidth (resize width w)) with width.
    change (main_sidebar (resize width w)) with (main_sidebar w).
    rewrite Z.leb_antisym, Hs.
    destruct (991 <? width); simpl.
    + rewrite andb_false_r.
      apply (remove_update_gone s (resize width w) "sidebar-open").
      by apply main_sidebar_valid.
    + by rewrite andb_true_r.
  - intros n c Hc. rewrite (Hother n c Hc).
    destruct (handleResize_exec (resize width w)) as [-> | ->]; [done|].
    by rewrite remove_update_other.
Qed.

Lemma resizes_clear_open_once_wide_witness :
  main_sidebar (page 500 [] ["sidebar-open"]) = Some 4%nat
  ∧ hasClass (foldl (λ x width, exec handleResize (resize width x))
                (page 500 [] ["sidebar-open"]) [600; 1200; 400])
      4 "sidebar-open" = false
  ∧ hasClass (foldl (λ x width, exec handleResize (resize width x))
                (page 500 [] ["sidebar-open"]) [600; 991; 400])
      4 "sidebar-open" = true.
Proof.
  split; [reflexivity|]. split.
  - rewrite (proj1 (resizes_clear_open_once_wide (page 500 [] ["sidebar-open"])
                      4 [600; 1200; 400] eq_refl)).
    reflexivity.
  - rewrite (proj1 (resizes_clear_open_once_wide (page 500 [] ["sidebar-open"])
                      4 [600; 991; 400] eq_refl)).
    reflexivity.
Defined.

Section CommuteFacts.
Implicit Types (w : world) (n m : node) (c : string) (o : option node).
Variable f : list string → list string.

Lemma update_classList_missing n w :
  elements w !! n = None → update_classList f (Some n) w = (Throw TypeError, w).
Proof. intros H. unfold update_classList. by rewrite H. Qed.

Lemma update_classList_missing_after o n w :
  elements w !! n = None →
  elements (update_classList f o w).2 !! n = None.
Proof.
  intros H. pose proof (same_tree_lookup _ _ n (same_tree_update f o w)) as Hl.
  destruct (elements (update_classList f o w).2 !! n) eqn:Hn; [|done].
  destruct Hl as [Hl _]. destruct Hl as [? ?]; [eauto | congruence].
Qed.

(** Two updates of class lists can be made in either order. *)
Lemma update_classList_commute o1 o2 w :
  (update_classList f o2 (update_classList f o1 w).2).2
  = (update_classList f o1 (update_classList f o2 w).2).2.
Proof.
  destruct o1 as [n1|]; [|done].
  destruct o2 as [n2|]; [|done].
  destruct (elements w !! n1) as [e1|] eqn:He1; cycle 1.
  { rewrite (update_classList_missing n1 w He1). cbn [snd].
    by rewrite (update_classList_missing n1 _
                  (update_classList_missing_after (Some n2) n1 w He1)). }
  destruct (elements w !! n2) as [e2|] eqn:He2; cycle 1.
  { rewrite (update_classList_missing n2 w He2). cbn [snd].
    by rewrite (update_classList_missing n2 _
                  (update_classList_missing_after (Some n1) n2 w He2)). }
  destruct (decide (n1 = n2)) as [->|Hne]; [done|].
  rewrite (update_classList_Some f n1 e1 w He1).
  rewrite (update_classList_Some f n2 e2 w He2). cbn [snd].
  assert (elements (with_classList n1 (f (classList e1)) w) !! n2 = Some e2)
    as He2' by (by rewrite lookup_with_classList_other).
  assert (elements (with_classList n2 (f (classList e2)) w) !! n1 = Some e1)
    as He1' by (by rewrite lookup_with_classList_other).
  rewrite (update_classList_Some f n2 e2 _ He2').
  rewrite (update_classList_Some f n1 e1 _ He1'). cbn [snd].
  unfold with_classList. cbn [innerWidth body elements events]. f_equal.
  by apply list_alter_alter_ne.
Qed.

End CommuteFacts.

Section TreeviewCommute.
Implicit Types (w : world) (n m : node) (c : string) (ev : event).

Lemma with_prevented_commute ev1 ev2 w :
  with_prevented ev2 (with_prevented ev1 w)
  = with_prevented ev1 (with_prevented ev2 w).
Proof.
  unfold with_prevented. cbn [innerWidth body elements events]. f_equal.
  destruct (decide (ev1 = ev2)) as [->|Hne]; [done|].
  by apply list_alter_alter_ne.
Qed.

(** The world a call of [toggleTreeview] leaves behind. *)
Lemma toggleTreeview_exec_live element ev w :
  is_Some (events w !! ev) →
  exec (toggleTreeview element ev) w
  = with_prevented ev
      (update_classList (λ l, (TokenList.toggle "menu-open" l).2)
         (elements w !! element ≫= parentElement) w).2.
Proof.
  intros He. unfold exec. rewrite toggleTreeview_exec by done.
  by destruct (elements w !! element).
Qed.

Lemma toggleTreeview_exec_dead element ev w :
  events w !! ev = None → exec (toggleTreeview element ev) w = w.
Proof.
  intros He. unfold exec. rewrite toggleTreeview_run.
  unfold toggleTreeview_outcome. by rewrite He.
Qed.

(** A call keeps every event object in place and every parent. *)
Lemma toggleTreeview_keeps_event element ev ev' w :
  is_Some (events (exec (toggleTreeview element ev) w) !! ev')
  ↔ is_Some (events w !! ev').
Proof.
  destruct (events w !! ev) as [e|] eqn:He; cycle 1.
  { by rewrite toggleTreeview_exec_dead. }
  rewrite toggleTreeview_exec_live by eauto.
  unfold with_prevented. cbn [events].
  rewrite (proj2 (proj2 (update_classList_fixed _ _ _))).
  rewrite !lookup_lt_is_Some. by rewrite length_alter.
Qed.

Lemma toggleTreeview_keeps_parent element ev m w :
  elements (exec (toggleTreeview element ev) w) !! m ≫= parentElement
  = elements w !! m ≫= parentElement.
Proof.
  destruct (handler_stable w _ (toggleTreeview_is_handler element ev))
    as [(_ & _ & Hn) _].
  destruct (Hn m) as [_ Hp].
  destruct (elements (exec (toggleTreeview element ev) w) !! m),
    (elements w !! m); simpl in *; congruence.
Qed.

End TreeviewCommute.

(** X13. Submenus are independent: two calls of [toggleTreeview], on
    any two elements and with any two event objects, leave the same world
    behind in either order. *)
Theorem toggleTreeview_commutes
    (w : world) (element1 element2 : node) (ev1 ev2 : event) :
  exec (toggleTreeview element2 ev2) (exec (toggleTreeview element1 ev1) w)
  = exec (toggleTreeview element1 ev1) (exec (toggleTreeview element2 ev2) w).
Proof.
  destruct (events w !! ev1) as [e1|] eqn:He1; cycle 1.
  { rewrite (toggleTreeview_exec_dead element1 ev1 w He1).
    rewrite (toggleTreeview_exec_dead element1 ev1
               (exec (toggleTreeview element2 ev2) w)); [done|].
    apply eq_None_not_Some. rewrite toggleTreeview_keeps_event.
    rewrite He1. intros [? ?]. done. }
  destruct (events w !! ev2) as [e2|] eqn:He2; cycle 1.
  { rewrite (toggleTreeview_exec_dead element2 ev2 w He2).
    rewrite (toggleTreeview_exec_dead element2 ev2
               (exec (toggleTreeview element1 ev1) w)); [done|].
    apply eq_None_not_Some. rewrite toggleTreeview_keeps_event.
    rewrite He2. intros [? ?]. done. }
  rewrite (toggleTreeview_exec_live element2 ev2
             (exec (toggleTreeview element1 ev1) w))
    by (apply toggleTreeview_keeps_event; eauto).
  rewrite (toggleTreeview_exec_live element1 ev1
             (exec (toggleTreeview element2 ev2) w))
    by (apply toggleTreeview_keeps_event; eauto).
  rewrite !toggleTreeview_keeps_parent.
  rewrite !toggleTreeview_exec_live by eauto.
  rewrite !update_classList_with_prevented. cbn [snd].
  rewrite with_prevented_commute. f_equal. f_equal.
  apply update_classList_commute.
Qed.

(** ** Facts about listeners and dispatch *)

Section BrowserFacts.
Implicit Types (b : browser) (w : world) (k : nat) (e : browser_event).

Lemma filter_all {A} (P : A → Prop) `{∀ x, Decision (P x)} (l : list A) :
  (∀ x, x ∈ l → P x) → filter P l = l.
Proof.
  induction l as [|x l IH]; intros Hl; [done|].
  rewrite filter_cons_True by (apply Hl; by left).
  rewrite IH; [done|]. intros y Hy. apply Hl. by right.
Qed.

Lemma filter_none {A} (P : A → Prop) `{∀ x, Decision (P x)} (l : list A) :
  (∀ x, x ∈ l → ¬ P x) → filter P l = [].
Proof.
  induction l as [|x l IH]; intros Hl; [done|].
  rewrite filter_cons_False by (apply Hl; by left).
  apply IH. intros y Hy. apply Hl. by right.
Qed.

Lemma addEventListener_dom t type cb b :
  dom (addEventListener t type cb b) = dom b.
Proof. unfold addEventListener. by case_bool_decide. Qed.

Lemma onDOMContentLoaded_dom b : dom (onDOMContentLoaded b) = dom b.
Proof.
  unfold onDOMContentLoaded. by rewrite addEventListener_dom, addEventListener_dom.
Qed.

(** The click closures of [k] runs of the callback. *)
Lemma installed_S k :
  installed (S k)
  = installed k
    ++ match k with
       | O => [mkListener OnWindow "resize" handleResize_callback]
       | S _ => []
       end
    ++ [mkListener OnDocument "click" (click_callback k)].
Proof.
  destruct k as [|k]; [done|].
  unfold installed. by rewrite (seq_S (S k)), fmap_app.
Qed.

Lemma click_not_installed k :
  mkListener OnDocument "click" (click_callback k) ∉ installed k.
Proof.
  unfold installed. intros Hin.
  apply elem_of_cons in Hin as [Hin|Hin]; [done|].
  destruct k as [|k]; [by apply elem_of_nil in Hin|].
  apply elem_of_cons in Hin as [Hin|Hin]; [done|].
  apply list_elem_of_fmap in Hin as (i & [= ->] & Hi).
  apply elem_of_seq in Hi. lia.
Qed.

Lemma resize_installed k :
  mkListener OnWindow "resize" handleResize_callback ∈ installed k
  ↔ k ≠ 0%nat.
Proof.
  unfold installed. destruct k as [|k]; split; try done.
  - intros Hin. apply elem_of_cons in Hin as [Hin|Hin]; [done|].
    by apply elem_of_nil in Hin.
  - intros _. right. by left.
Qed.

Lemma addEventListener_new t type cb b :
  mkListener t type cb ∉ listeners b →
  addEventListener t type cb b
  = mkBrowser (dom b) (listeners b ++ [mkListener t type cb]) (closures b).
Proof. intros H. unfold addEventListener. by rewrite bool_decide_eq_false_2. Qed.

Lemma addEventListener_old t type cb b :
  mkListener t type cb ∈ listeners b → addEventListener t type cb b = b.
Proof. intros H. unfold addEventListener. by rewrite bool_decide_eq_true_2. Qed.

(** One run of the [DOMContentLoaded] callback. *)
Lemma onDOMContentLoaded_installed b k :
  listeners b = installed k → closures b = k →
  listeners (onDOMContentLoaded b) = installed (S k)
  ∧ closures (onDOMContentLoaded b) = S k.
Proof.
  destruct b as [d ls c]. cbn [listeners closures]. intros -> ->.
  unfold onDOMContentLoaded. rewrite installed_S.
  destruct k as [|k].
  - rewrite (addEventListener_new OnWindow "resize")
      by (intros Hin; by apply resize_installed in Hin).
    cbn [listeners closures dom].
    rewrite addEventListener_new.
    + cbn [listeners closures]. by rewrite <- app_assoc.
    + cbn [listeners]. intros Hin. apply elem_of_app in Hin as [Hin|Hin].
      * by apply (click_not_installed 0).
      * by apply list_elem_of_singleton in Hin.
  - rewrite (addEventListener_old OnWindow "resize")
      by (by apply resize_installed).
    cbn [listeners closures dom].
    rewrite addEventListener_new by apply click_not_installed.
    done.
Qed.

Lemma not_listener_fmap (P : listener → Prop) (ks : list nat) x :
  x ∈ (λ i, mkListener OnDocument "click" (click_callback i)) <$> ks →
  (∀ i, P (mkListener OnDocument "click" (click_callback i))) → P x.
Proof. intros Hx HP. apply list_elem_of_fmap in Hx as (i & -> & _). apply HP. Qed.

Lemma listeners_on_installed t e k :
  listeners_on t e (installed k)
  = match t, e with
    | OnDocument, DOMContentLoaded =>
        [mkListener OnDocument "DOMContentLoaded" init_callback]
    | OnWindow, Resize _ =>
        match k with
        | O => []
        | S _ => [mkListener OnWindow "resize" handleResize_callback]
        end
    | OnDocument, Click _ =>
        (λ i, mkListener OnDocument "click" (click_callback i)) <$> seq 0 k
    | _, _ => []
    end.
Proof.
  unfold listeners_on, installed.
  assert (∀ (P : listener → Prop) `{∀ x, Decision (P x)},
            (∀ i, ¬ P (mkListener OnDocument "click" (click_callback i))) →
            filter P ((λ i, mkListener OnDocument "click" (click_callback i))
                        <$> seq 0 k) = []) as Hnone.
  { intros P ? HP. apply filter_none. intros x Hx.
    by apply (not_listener_fmap (λ x, ¬ P x) _ _ Hx). }
  assert (∀ (P : listener → Prop) `{∀ x, Decision (P x)},
            (∀ i, P (mkListener OnDocument "click" (click_callback i))) →
            filter P ((λ i, mkListener OnDocument "click" (click_callback i))
                        <$> seq 0 k)
            = (λ i, mkListener OnDocument "click" (click_callback i))
                <$> seq 0 k) as Hall.
  { intros P ? HP. apply filter_all. intros x Hx.
    by apply (not_listener_fmap P _ _ Hx). }
  destruct t, e as [|width|ev]; cbn [type_of];
    first [rewrite filter_cons_True by done
          | rewrite filter_cons_False by (simpl; intros [? ?]; done)];
    destruct k as [|k]; try done;
    first [rewrite filter_cons_True by done
          | rewrite filter_cons_False by (simpl; intros [? ?]; done)];
    first [by rewrite Hall by done
          | by rewrite Hnone by (simpl; intros i [? ?]; done)].
Qed.

(** Calling listeners that only write the document keeps the
    listeners. *)
Lemma foldl_call_listeners e b (ls : list listener) :
  (∀ l, l ∈ ls → callback_of l ≠ init_callback) →
  listeners (foldl (λ b l, call (callback_of l) e b) b ls) = listeners b
  ∧ closures (foldl (λ b l, call (callback_of l) e b) b ls) = closures b.
Proof.
  revert b. induction ls as [|l ls IH]; intros b Hls; [done|].
  cbn [foldl].
  destruct (IH (call (callback_of l) e b)) as [-> ->].
  { intros l' Hl'. apply Hls. by right. }
  assert (callback_of l ≠ init_callback) as Hl by (apply Hls; by left).
  destruct (callback_of l); [done|done|]. by destruct e.
Qed.

(** Any number of click closures has the effect of one. *)
Lemma foldl_click_closures ev b (ks : list nat) :
  ks ≠ [] →
  dom (foldl (λ b l, call (callback_of l) (Click ev) b) b
         ((λ i, mkListener OnDocument "click" (click_callback i)) <$> ks))
  = exec (documentClick ev) (dom b).
Proof.
  revert b. induction ks as [|k ks IH]; intros b Hks; [done|].
  cbn [fmap list_fmap foldl callback_of call].
  destruct ks as [|k' ks]; [done|].
  change ((λ i, mkListener OnDocument "click" (click_callback i)) k'
          :: list_fmap _ _ (λ i, mkListener OnDocument "click" (click_callback i)) ks)
    with ((λ i, mkListener OnDocument "click" (click_callback i)) <$> (k' :: ks)).
  rewrite IH by done. cbn [on_dom dom].
  apply click_listener_twice.
Qed.

End BrowserFacts.

Section RunFacts.
Implicit Types (b : browser) (w : world) (k : nat) (e : browser_event).

Lemma loads_cons (a : action) (acts : list action) :
  loads (a :: acts)
  = ((if bool_decide (a = Fire DOMContentLoaded) then 1 else 0) + loads acts)%nat.
Proof.
  unfold loads. case_bool_decide.
  - by rewrite filter_cons_True.
  - by rewrite filter_cons_False.
Qed.

(** What dispatch does once the listeners are the installed ones. *)
Lemma dispatch_installed e b k :
  listeners b = installed k → closures b = k →
  match e with
  | DOMContentLoaded =>
      dom (dispatch e b) = dom b
      ∧ listeners (dispatch e b) = installed (S k)
      ∧ closures (dispatch e b) = S k
  | Resize width =>
      dom (dispatch e b)
      = match k with
        | O => resize width (dom b)
        | S _ => exec handleResize (resize width (dom b))
        end
      ∧ listeners (dispatch e b) = installed k
      ∧ closures (dispatch e b) = k
  | Click ev =>
      dom (dispatch e b)
      = match k with
        | O => dom b
        | S _ => exec (documentClick ev) (dom b)
        end
      ∧ listeners (dispatch e b) = installed k
      ∧ closures (dispatch e b) = k
  end.
Proof.
  intros Hl Hk. unfold dispatch. destruct e as [|width|ev];
    cbn [path_of foldl]; unfold invoke.
  - rewrite Hl, listeners_on_installed. cbn [foldl callback_of call].
    destruct (onDOMContentLoaded_installed b k Hl Hk) as [Hl' Hk'].
    rewrite Hl', listeners_on_installed. cbn [foldl].
    split; [apply onDOMContentLoaded_dom | done].
  - cbn [on_dom listeners]. rewrite Hl, listeners_on_installed.
    destruct k as [|k]; cbn [foldl callback_of call on_dom dom listeners closures];
      done.
  - rewrite Hl, listeners_on_installed.
    destruct (foldl_call_listeners (Click ev) b
                ((λ i, mkListener OnDocument "click" (click_callback i))
                   <$> seq 0 k)) as [Hl' Hk'].
    { intros l Hin. apply list_elem_of_fmap in Hin as (i & -> & _). done. }
    rewrite Hl', Hl, listeners_on_installed. cbn [foldl].
    split; [|by rewrite Hl', Hk'].
    destruct k as [|k]; [done|]. by apply foldl_click_closures.
Qed.

Lemma step_installed (a : action) b k :
  listeners b = installed k → closures b = k →
  listeners (step b a)
  = installed ((if bool_decide (a = Fire DOMContentLoaded) then 1 else 0) + k)
  ∧ closures (step b a)
    = ((if bool_decide (a = Fire DOMContentLoaded) then 1 else 0) + k)%nat.
Proof.
  intros Hl Hk. destruct a as [e| |element ev]; [|done|done].
  pose proof (dispatch_installed e b k Hl Hk) as H.
  destruct e; cbn [step]; [by destruct H as (_ & ? & ?)| |];
    rewrite bool_decide_eq_false_2 by done; by destruct H as (_ & ? & ?).
Qed.

Lemma run_installed (acts : list action) b k :
  listeners b = installed k → closures b = k →
  listeners (run acts b) = installed (k + loads acts)
  ∧ closures (run acts b) = (k + loads acts)%nat.
Proof.
  revert b k. induction acts as [|a acts IH]; intros b k Hl Hk.
  { unfold loads. simpl. by rewrite Nat.add_0_r. }
  destruct (step_installed a b k Hl Hk) as [Hl' Hk'].
  unfold run. cbn [foldl]. fold (run acts (step b a)).
  destruct (IH _ _ Hl' Hk') as [-> ->]. rewrite loads_cons.
  split; [f_equal|]; lia.
Qed.

Lemma script_installed w :
  listeners (script w) = installed 0 ∧ closures (script w) = 0%nat
  ∧ dom (script w) = w.
Proof. done. Qed.

(** A property of the document that every piece of script code keeps
    is kept by every listener call, every dispatch and every run. *)
Lemma foldl_call_invariant (Q : world → Prop) e (ls : list listener) b :
  (∀ x, Q x → Q (exec handleResize x)) →
  (∀ x ev, Q x → Q (exec (documentClick ev) x)) →
  Q (dom b) → Q (dom (foldl (λ b l, call (callback_of l) e b) b ls)).
Proof.
  intros Hr Hc. revert b. induction ls as [|l ls IH]; intros b Hb; [done|].
  cbn [foldl]. apply IH. destruct (callback_of l); cbn [call].
  - by rewrite onDOMContentLoaded_dom.
  - by apply Hr.
  - destruct e; try done. by apply Hc.
Qed.

Lemma run_invariant (Q : world → Prop) (allowed : action → Prop)
    (acts : list action) b :
  (∀ x width, Q x → Q (resize width x)) →
  (∀ x, Q x → Q (exec handleResize x)) →
  (∀ x ev, Q x → Q (exec (documentClick ev) x)) →
  (∀ x, allowed CallToggleSidebar → Q x → Q (exec toggleSidebar x)) →
  (∀ x element ev, allowed (CallToggleTreeview element ev) → Q x →
     Q (exec (toggleTreeview element ev) x)) →
  Forall allowed acts →
  Q (dom b) → Q (dom (run acts b)).
Proof.
  intros Hz Hr Hc Hs Ht. revert b.
  induction acts as [|a acts IH]; intros b Hacts Hb; [done|].
  apply Forall_cons in Hacts as [Ha Hacts].
  unfold run. cbn [foldl]. apply IH; [done|].
  destruct a as [e| |element ev]; cbn [step on_dom dom].
  - unfold dispatch.
    assert (∀ (ts : list listener_target) b',
              Q (dom b') → Q (dom (foldl (invoke e) b' ts))) as Hpath.
    { induction ts as [|t ts IHts]; intros b' Hb'; [done|].
      cbn [foldl]. apply IHts. unfold invoke.
      by apply foldl_call_invariant. }
    apply Hpath. destruct e; [done| |done]. by apply Hz.
  - by apply Hs.
  - by apply Ht.
Qed.

(** Over a run the tree and every class that is not one of the three
    flags stay as they were. *)
Lemma run_stable (acts : list action) b :
  same_tree (resize (innerWidth (dom (run acts b))) (dom b)) (dom (run acts b))
  ∧ ∀ n c, c ≠ "sidebar-collapse" → c ≠ "sidebar-open" → c ≠ "menu-open" →
           hasClass (dom (run acts b)) n c = hasClass (dom b) n c.
Proof.
  assert (∀ x (h : JS unit),
            h = toggleSidebar ∨ h = handleResize ∨ (∃ ev, h = documentClick ev)
            ∨ (∃ element ev, h = toggleTreeview element ev) →
            same_tree (resize (innerWidth x) (dom b)) x
            ∧ (∀ n c, c ≠ "sidebar-collapse" → c ≠ "sidebar-open" →
                      c ≠ "menu-open" → hasClass x n c = hasClass (dom b) n c) →
            same_tree (resize (innerWidth (exec h x)) (dom b)) (exec h x)
            ∧ (∀ n c, c ≠ "sidebar-collapse" → c ≠ "sidebar-open" →
                      c ≠ "menu-open" →
                      hasClass (exec h x) n c = hasClass (dom b) n c)) as Hstep.
  { intros x h Hh [Hx Hc]. destruct (handler_stable x h Hh) as [Ht Ho].
    split.
    - rewrite (proj1 Ht). by apply same_tree_trans with x.
    - intros n c H1 H2 H3. rewrite Ho by done. by apply Hc. }
  apply (run_invariant
           (λ x, same_tree (resize (innerWidth x) (dom b)) x
                 ∧ ∀ n c, c ≠ "sidebar-collapse" → c ≠ "sidebar-open" →
                          c ≠ "menu-open" →
                          hasClass x n c = hasClass (dom b) n c)
           (λ _, True)).
  - intros x width [(_ & Hb & Hn) Hc]. split; [|exact Hc].
    split; [done|]. split; [exact Hb | exact Hn].
  - intros x. apply Hstep. right. by left.
  - intros x ev. apply Hstep. right. right. left. eauto.
  - intros x _. apply Hstep. by left.
  - intros x element ev _. apply Hstep. right. right. right. eauto.
  - by apply Forall_forall.
  - split; [|done]. split; [done|]. by split.
Qed.

Lemma run_main_sidebar (acts : list action) b :
  main_sidebar (dom (run acts b)) = main_sidebar (dom b).
Proof.
  destruct (run_stable acts b) as [(_ & Hb & Hn) _].
  apply (same_tree_main_sidebar (dom b)
           (resize (innerWidth (dom b)) (dom (run acts b)))).
  split; [done|]. split; [exact Hb | exact Hn].
Qed.

Lemma run_app (acts1 acts2 : list action) b :
  run (acts1 ++ acts2) b = run acts2 (run acts1 b).
Proof. unfold run. apply foldl_app. Qed.

Lemma loads_elem_of (acts : list action) :
  Fire DOMContentLoaded ∈ acts → ∃ k, loads acts = S k.
Proof.
  intros Hin. unfold loads.
  destruct (filter (λ a, a = Fire DOMContentLoaded) acts) as [|a l] eqn:Hf.
  - by apply (filter_nil_not_elem_of _ _ _ Hf eq_refl) in Hin.
  - simpl. eauto.
Qed.

End RunFacts.

(** ** The page in use *)

(** A session on a narrow window: a click before the listeners are
    installed leaves the open sidebar open; after [DOMContentLoaded] the
    same click closes it. *)
Example session_sample :
  classes (dom (run [Fire (Click 0)] (script (page 500 [] ["sidebar-open"])))) 4
  = Some ["sidebar-open"]
  ∧ classes (dom (run [Fire DOMContentLoaded; Fire (Click 0)]
                    (script (page 500 [] ["sidebar-open"])))) 4
    = Some [].
Proof. split; reflexivity. Qed.

(** X15. Whatever happens on the page after the script ran, the
    installed listeners are: the [DOMContentLoaded] callback on the
    document; and, once [DOMContentLoaded] has fired, [handleResize] for
    [resize] on the window exactly once, followed by one click closure on
    the document for each time it fired. *)
Theorem listeners_after_run (w : world) (acts : list action) :
  listeners (run acts (script w)) = installed (loads acts)
  ∧ closures (run acts (script w)) = loads acts.
Proof.
  destruct (script_installed w) as (Hl & Hk & _).
  destruct (run_installed acts (script w) 0 Hl Hk) as [Hl' Hk'].
  split; [exact Hl' | exact Hk'].
Qed.

(** X16. Events reach the handlers only after [DOMContentLoaded]:
    before it has fired, a click changes nothing and a resize changes
    only the window width.  Once it has fired, a resize runs
    [handleResize()] at the new width and a click has the effect of
    exactly one run of the click listener, however many click closures
    are installed.  [DOMContentLoaded] itself changes nothing in the
    document. *)
Theorem events_reach_handlers_after_load
    (w : world) (acts : list action) :
  (∀ ev,
     dom (step (run acts (script w)) (Fire (Click ev)))
     = match loads acts with
       | O => dom (run acts (script w))
       | S _ => exec (documentClick ev) (dom (run acts (script w)))
       end)
  ∧ (∀ width,
       dom (step (run acts (script w)) (Fire (Resize width)))
       = match loads acts with
         | O => resize width (dom (run acts (script w)))
         | S _ => exec handleResize (resize width (dom (run acts (script w))))
         end)
  ∧ dom (step (run acts (script w)) (Fire DOMContentLoaded))
    = dom (run acts (script w)).
Proof.
  destruct (script_installed w) as (Hl & Hk & _).
  destruct (run_installed acts (script w) 0 Hl Hk) as [Hl' Hk'].
  cbn [Nat.add] in Hl', Hk'. cbn [step].
  split; [|split].
  - intros ev.
    by destruct (dispatch_installed (Click ev) _ _ Hl' Hk') as (-> & _).
  - intros width.
    by destruct (dispatch_installed (Resize width) _ _ Hl' Hk') as (-> & _).
  - by destruct (dispatch_installed DOMContentLoaded _ _ Hl' Hk') as (-> & _).
Qed.

(** X17. Submenus change only through [toggleTreeview]: over any run
    of events and calls that contains no call of [toggleTreeview], no
    [menu-open] flag changes and no event object is written. *)
Theorem menu_open_only_by_toggleTreeview (w : world) (acts : list action) :
  (∀ element ev, CallToggleTreeview element ev ∉ acts) →
  (∀ n, hasClass (dom (run acts (script w))) n "menu-open"
        = hasClass w n "menu-open")
  ∧ events (dom (run acts (script w))) = events w.
Proof.
  intros Hno.
  apply (run_invariant
           (λ x, (∀ n, hasClass x n "menu-open" = hasClass w n "menu-open")
                 ∧ events x = events w)
           (λ a, ∀ element ev, a ≠ CallToggleTreeview element ev)).
  - intros x width Hx. exact Hx.
  - intros x [Hx He]. split.
    + intros n. rewrite <- Hx.
      destruct (handleResize_exec x) as [-> | ->]; [done|].
      by apply remove_update_other.
    + rewrite <- He.
      destruct (handleResize_exec x) as [-> | ->]; [done|].
      apply update_classList_fixed.
  - intros x ev [Hx He]. split.
    + intros n. rewrite <- Hx.
      destruct (documentClick_exec ev x) as [-> | ->]; [done|].
      by apply remove_update_other.
    + rewrite <- He.
      destruct (documentClick_exec ev x) as [-> | ->]; [done|].
      apply update_classList_fixed.
  - intros x _ [Hx He]. split.
    + intros n. rewrite <- Hx. unfold exec. rewrite toggleSidebar_run.
      destruct (991 <? innerWidth x); by apply toggle_update_other.
    + by rewrite toggleSidebar_events.
  - intros x element ev Ha _. by destruct (Ha element ev).
  - apply Forall_forall. intros a Ha element ev ->. by apply (Hno element ev).
  - done.
Qed.

Lemma menu_open_only_by_toggleTreeview_witness :
  hasClass
    (dom (run [Fire DOMContentLoaded; CallToggleSidebar; Fire (Click 0);
               Fire (Resize 1200); CallToggleSidebar]
            (script (page 500 [] [])))) 5 "menu-open"
  = false.
Proof.
  rewrite (proj1 (menu_open_only_by_toggleTreeview (page 500 [] [])
                    [Fire DOMContentLoaded; CallToggleSidebar; Fire (Click 0);
                     Fire (Resize 1200); CallToggleSidebar]
                    ltac:(intros element ev Hin;
                          repeat (apply elem_of_cons in Hin as [Hin|Hin];
                                  [discriminate Hin|]);
                          by apply elem_of_nil in Hin))).
  reflexivity.
Defined.

(** X18. The sidebar flags change only as far as [toggleSidebar]
    allows: over any run of events and calls that contains no call of
    [toggleSidebar], no [sidebar-collapse] flag changes and no element
    gains [sidebar-open]. *)
Theorem sidebar_flags_without_toggleSidebar (w : world) (acts : list action) :
  CallToggleSidebar ∉ acts →
  (∀ n, hasClass (dom (run acts (script w))) n "sidebar-collapse"
        = hasClass w n "sidebar-collapse")
  ∧ (∀ n, hasClass (dom (run acts (script w))) n "sidebar-open" = true →
          hasClass w n "sidebar-open" = true).
Proof.
  intros Hno.
  apply (run_invariant
           (λ x, (∀ n, hasClass x n "sidebar-collapse"
                       = hasClass w n "sidebar-collapse")
                 ∧ (∀ n, hasClass x n "sidebar-open" = true →
                         hasClass w n "sidebar-open" = true))
           (λ a, a ≠ CallToggleSidebar)).
  - intros x width Hx. exact Hx.
  - intros x [Hx Ho]. split.
    + intros n. rewrite <- Hx.
      destruct (handleResize_exec x) as [-> | ->]; [done|].
      by apply remove_update_other.
    + intros n Hn. apply Ho.
      destruct (handleResize_exec x) as [Hid|Hrm]; [by rewrite <- Hid|].
      rewrite Hrm in Hn. by apply remove_update_le in Hn.
  - intros x ev [Hx Ho]. split.
    + intros n. rewrite <- Hx.
      destruct (documentClick_exec ev x) as [-> | ->]; [done|].
      by apply remove_update_other.
    + intros n Hn. apply Ho.
      destruct (documentClick_exec ev x) as [Hid|Hrm]; [by rewrite <- Hid|].
      rewrite Hrm in Hn. by apply remove_update_le in Hn.
  - intros x Ha _. done.
  - intros x element ev _ [Hx Ho].
    assert (∀ n c, c ≠ "menu-open" →
              hasClass (exec (toggleTreeview element ev) x) n c
              = hasClass x n c) as Hsame.
    { intros n c Hc. destruct (events x !! ev) as [e|] eqn:He.
      - rewrite toggleTreeview_exec_live by eauto.
        rewrite hasClass_with_prevented. by apply toggle_update_other.
      - by rewrite toggleTreeview_exec_dead. }
    split.
    + intros n. by rewrite Hsame.
    + intros n. rewrite Hsame by done. apply Ho.
  - apply Forall_forall. intros a Ha ->. by apply Hno.
  - done.
Qed.

Lemma sidebar_flags_without_toggleSidebar_witness :
  hasClass
    (dom (run [Fire DOMContentLoaded; Fire (Click 0); CallToggleTreeview 6 1;
               Fire (Resize 1200); Fire (Resize 500)]
            (script (page 500 ["sidebar-collapse"] []))))
    1 "sidebar-collapse"
  = true.
Proof.
  rewrite (proj1 (sidebar_flags_without_toggleSidebar
                    (page 500 ["sidebar-collapse"] [])
                    [Fire DOMContentLoaded; Fire (Click 0);
                     CallToggleTreeview 6 1; Fire (Resize 1200);
                     Fire (Resize 500)]
                    ltac:(intros Hin;
                          repeat (apply elem_of_cons in Hin as [Hin|Hin];
                                  [discriminate Hin|]);
                          by apply elem_of_nil in Hin))).
  reflexivity.
Defined.



(** X20. A wide resize closes the sidebar until the next call of
    [toggleSidebar]: with a sidebar in the document, once
    [DOMContentLoaded] has fired, after a resize to a width above 991 the
    sidebar is without [sidebar-open], and it stays without it over any
    further events and [toggleTreeview] calls, at whatever widths. *)
Theorem wide_resize_closes_until_toggle
    (w : world) (s : node) (before after : list action) (width : Z) :
  main_sidebar w = Some s →
  Fire DOMContentLoaded ∈ before →
  991 < width →
  CallToggleSidebar ∉ after →
  hasClass (dom (run (before ++ Fire (Resize width) :: after) (script w)))
    s "sidebar-open"
  = false.
Proof.
  intros Hs Hload Hwide Hno.
  rewrite run_app. unfold run at 1. cbn [foldl].
  fold (run after (step (run before (script w)) (Fire (Resize width)))).
  apply (run_invariant (λ x, hasClass x s "sidebar-open" = false)
           (λ a, a ≠ CallToggleSidebar)).
  - intros x width' Hx. exact Hx.
  - intros x Hx. apply not_true_is_false. intros Hn.
    destruct (handleResize_exec x) as [Hid|Hrm];
      [rewrite Hid in Hn; congruence|].
    rewrite Hrm in Hn. apply remove_update_le in Hn. congruence.
  - intros x ev Hx. apply not_true_is_false. intros Hn.
    destruct (documentClick_exec ev x) as [Hid|Hrm];
      [rewrite Hid in Hn; congruence|].
    rewrite Hrm in Hn. apply remove_update_le in Hn. congruence.
  - intros x Ha _. done.
  - intros x element ev _ Hx.
    transitivity (hasClass x s "sidebar-open"); [|exact Hx].
    destruct (events x !! ev) as [e|] eqn:He.
    + rewrite toggleTreeview_exec_live by eauto.
      rewrite hasClass_with_prevented. by apply toggle_update_other.
    + by rewrite toggleTreeview_exec_dead.
  - apply Forall_forall. intros a Ha ->. by apply Hno.
  - destruct (script_installed w) as (Hl & Hk & _).
    destruct (run_installed before (script w) 0 Hl Hk) as [Hl' Hk'].
    destruct (loads_elem_of before Hload) as [k Hloads].
    cbn [Nat.add] in Hl', Hk'. rewrite Hloads in Hl', Hk'.
    cbn [step].
    destruct (dispatch_installed (Resize width) _ _ Hl' Hk') as (-> & _).
    unfold exec. rewrite handleResize_run.
    change (innerWidth (resize width ?x)) with width.
    apply Z.ltb_lt in Hwide. rewrite Hwide.
    change (main_sidebar (resize width ?x)) with (main_sidebar x).
    rewrite run_main_sidebar. change (dom (script w)) with w. rewrite Hs.
    apply remove_update_gone.
    apply (main_sidebar_valid (resize width (dom (run before (script w))))).
    change (main_sidebar (resize width ?x)) with (main_sidebar x).
    by rewrite run_main_sidebar.
Qed.

Lemma wide_resize_closes_until_toggle_witness :
  hasClass
    (dom (run ([Fire DOMContentLoaded; CallToggleSidebar]
               ++ Fire (Resize 1200)
                  :: [Fire (Resize 500); CallToggleTreeview 6 1; Fire (Click 1)])
            (script (page 500 [] []))))
    4 "sidebar-open"
  = false
  ∧ hasClass
      (dom (run [Fire DOMContentLoaded; CallToggleSidebar]
              (script (page 500 [] []))))
      4 "sidebar-open"
    = true.
Proof.
  split; [|reflexivity].
  apply (wide_resize_closes_until_toggle (page 500 [] []) 4
           [Fire DOMContentLoaded; CallToggleSidebar]
           [Fire (Resize 500); CallToggleTreeview 6 1; Fire (Click 1)] 1200
           eq_refl).
  - by left.
  - lia.
  - intros Hin.
    repeat (apply elem_of_cons in Hin as [Hin|Hin]; [discriminate Hin|]).
    by apply elem_of_nil in Hin.
Defined.
